(** * The replay buffer of machin ([models/frames/buffers/buffer.py])

    A shallow embedding of the [Buffer] class: the ring-buffer admission of
    [append], the three sampling strategies, and the batch post-processing
    of [sample_batch], followed by the properties proved about them.

    Python objects live in an object store: a transition handed to [append]
    is the caller's object, and [transition.to(device)] changes it in
    place. Exceptions and the random source are threaded through a small
    state-and-exception monad. *)

From stdpp Require Import base option list gmap strings.
From Stdlib Require Import ZArith Lia.
From Stdlib Require Floats.SpecFloat.

Local Open Scope string_scope.
Local Open Scope list_scope.
Local Open Scope nat_scope.

(** ** Outcomes of Python code *)

Module Py.

(** The exceptions the buffer raises or lets through, with what their
    message carries. *)
Inductive exn :=
| ValueError_missing_attributes (missing_keys : gset string)
    (* "Transition object missing attributes: {}".format(missing_keys) *)
| ValueError_different_attributes
    (* "Transition object has different attributes!" *)
| RuntimeError_sample_method (sample_method : string)
    (* "Cannot find specified sample method: {}".format(sample_method) *)
| ValueError_random      (* random.sample / random.randint on a bad range *)
| IndexError
| KeyError (key : string)
| TypeError
| AttributeError
| ZeroDivisionError
| RuntimeError_torch     (* shape errors of torch.cat and Tensor.view *)
| RuntimeError_overflow  (* torch: "Overflow when unpacking long" *)
| OverflowError          (* "int too large to convert to float" *)
| SystemError.           (* an address that names no object *)

Inductive outcome (A : Type) :=
| Return (a : A)
| Raise (e : exn).
Arguments Return {A} a.
Arguments Raise {A} e.

Definition outcome_bind {A B} (f : A → outcome B) (o : outcome A) : outcome B :=
  match o with
  | Return a => f a
  | Raise e => Raise e
  end.

#[global] Instance outcome_ret : MRet outcome := @Return.
#[global] Instance outcome_mbind : MBind outcome := @outcome_bind.

(** The names an exception's message carries. *)
Definition names_carried (e : exn) : gset string :=
  match e with
  | ValueError_missing_attributes missing_keys => missing_keys
  | RuntimeError_sample_method name => {[ name ]}
  | KeyError k => {[ k ]}
  | _ => ∅
  end.

(** [l[i]] for a Python list and a Python integer: negative indexes count
    from the end, anything out of range raises IndexError. *)
Definition getitem {A} (l : list A) (i : Z) : outcome A :=
  let n := Z.of_nat (length l) in
  let j := if (i <? 0)%Z then (n + i)%Z else i in
  if ((0 <=? j)%Z && (j <? n)%Z)%bool then
    match l !! Z.to_nat j with
    | Some x => Return x
    | None => Raise IndexError
    end
  else Raise IndexError.

(** [l[i] = x] for an index that is a natural number. *)
Definition setitem {A} (l : list A) (i : nat) (x : A) : outcome (list A) :=
  if decide (i < length l) then Return (<[i:=x]> l) else Raise IndexError.

(** A Python sequence value remembers whether it is a list or a tuple. *)
Inductive pyseq (A : Type) :=
| PyList (items : list A)
| PyTuple (items : list A).
Arguments PyList {A} items.
Arguments PyTuple {A} items.

Definition pyseq_items {A} (s : pyseq A) : list A :=
  match s with PyList l | PyTuple l => l end.

End Py.
Export Py.

(** ** The fragment of torch the buffer uses *)

Module Torch.

(** The Python scalars a transition holds: [int], [float] and [bool]. An
    [int] is unbounded; a [float] is a binary64 number. *)
Inductive Scalar :=
| SInt (i : Z)
| SFloat (x : SpecFloat.spec_float)
| SBool (b : bool).

Coercion SInt : Z >-> Scalar.

#[global] Instance spec_float_eq_dec : EqDecision SpecFloat.spec_float.
Proof. solve_decision. Defined.

#[global] Instance Scalar_eq_dec : EqDecision Scalar.
Proof. solve_decision. Defined.

(** The element types that arise from Python scalars: [t.bool],
    [t.int64] and the default floating type [t.float32]. *)
Inductive ScalarType := t_bool | t_int64 | t_float32.

#[global] Instance ScalarType_eq_dec : EqDecision ScalarType.
Proof. solve_decision. Defined.

(** A tensor: where it is stored, its element type, its shape, and its
    elements in row-major order, each written as the Python scalar that
    [item()] gives for it. *)
Record Tensor := mkTensor {
  device : string;
  dtype : ScalarType;
  shape : list nat;
  data : list Scalar
}.

#[global] Instance Tensor_eq_dec : EqDecision Tensor.
Proof. solve_decision. Defined.

(** Type promotion among the three element types. *)
Definition promote_types (a b : ScalarType) : ScalarType :=
  match a, b with
  | t_float32, _ | _, t_float32 => t_float32
  | t_int64, _ | _, t_int64 => t_int64
  | t_bool, t_bool => t_bool
  end.

(** The element type [torch.tensor] infers for one Python scalar and for
    a flat list of them; an empty list has the default type. *)
Definition scalar_type (s : Scalar) : ScalarType :=
  match s with
  | SInt _ => t_int64
  | SFloat _ => t_float32
  | SBool _ => t_bool
  end.

Definition infer_scalar_type (scalars : list Scalar) : ScalarType :=
  match scalars with
  | [] => t_float32
  | _ => foldr (λ s, promote_types (scalar_type s)) t_bool scalars
  end.

(** The integers a 64-bit element holds, and the test for them. *)
Definition in_int64 (i : Z) : Prop := (- 2 ^ 63 ≤ i < 2 ^ 63)%Z.

Definition fits_int64 (i : Z) : bool := ((- 2 ^ 63 <=? i) && (i <? 2 ^ 63))%Z.

(** [float(i)] for a Python int: the nearest binary64 number, ties to
    even; beyond the largest one, OverflowError. *)
Definition float_of_int (i : Z) : outcome SpecFloat.spec_float :=
  match SpecFloat.binary_normalize 53 1024 i 0 false with
  | SpecFloat.S754_infinity _ => Raise OverflowError
  | x => Return x
  end.

(** A binary64 number stored in a 32-bit element: the nearest binary32
    number, ties to even, an infinity beyond the largest one. *)
Definition float32_of_float (x : SpecFloat.spec_float) : SpecFloat.spec_float :=
  match x with
  | SpecFloat.S754_finite s m e => SpecFloat.binary_round 24 128 s m e
  | _ => x
  end.

(** A 64-bit integer stored in a 32-bit floating element. *)
Definition float32_of_int64 (i : Z) : SpecFloat.spec_float :=
  SpecFloat.binary_normalize 24 128 i 0 false.

(** What [torch.tensor] stores for one scalar of the list in an element
    of the inferred type: a bool among integers counts as 0 or 1, an int
    outside 64 bits overflows, and with a float in the list every scalar
    goes through [float] and is then rounded to 32 bits. The inferred
    type of a list is [t_bool] only if every scalar is a bool, and
    [t_int64] only if none is a float, so the two TypeError cases are not
    reached from [tensor]. *)
Definition store_scalar (d : ScalarType) (s : Scalar) : outcome Scalar :=
  match d, s with
  | t_bool, SBool b => Return (SBool b)
  | t_bool, _ => Raise TypeError
  | t_int64, SInt i =>
      if fits_int64 i then Return (SInt i) else Raise RuntimeError_overflow
  | t_int64, SBool b => Return (SInt (Z.b2z b))
  | t_int64, SFloat _ => Raise TypeError
  | t_float32, SFloat x => Return (SFloat (float32_of_float x))
  | t_float32, SInt i => x ← float_of_int i; Return (SFloat (float32_of_float x))
  | t_float32, SBool b => Return (SFloat (float32_of_int64 (Z.b2z b)))
  end.

(** [torch.tensor(scalars, device=device)] on a flat list of scalars *)
Definition tensor (scalars : list Scalar) (dev : string) : outcome Tensor :=
  let d := infer_scalar_type scalars in
  data ← mapM (store_scalar d) scalars;
  Return {| device := dev; dtype := d; shape := [length scalars]; data := data |}.

(** [tensor.to(device)] *)
Definition to (dev : string) (x : Tensor) : Tensor :=
  {| device := dev; dtype := dtype x; shape := shape x; data := data x |}.

(** An element converted to a type its own type promotes to. *)
Definition cast_scalar (d : ScalarType) (s : Scalar) : Scalar :=
  match d, s with
  | t_int64, SBool b => SInt (Z.b2z b)
  | t_float32, SBool b => SFloat (float32_of_int64 (Z.b2z b))
  | t_float32, SInt i => SFloat (float32_of_int64 i)
  | _, _ => s
  end.

(** [tensor.to(dtype)], for a type the tensor's type promotes to *)
Definition astype (d : ScalarType) (x : Tensor) : Tensor :=
  if decide (dtype x = d) then x
  else {| device := device x; dtype := d; shape := shape x;
          data := cast_scalar d <$> data x |}.

(** The common element type of a list of tensors. *)
Definition result_type (tensors : list Tensor) : ScalarType :=
  foldr (λ y, promote_types (dtype y)) t_bool tensors.

(** [torch.cat(tensors, dim=0)]: every tensor has at least one
    dimension; the tensors other than the empty one-dimensional ones,
    which add no row, agree on the dimensions after the first; the
    elements are converted to the common element type. *)
Definition cat (tensors : list Tensor) : outcome Tensor :=
  match tensors with
  | [] => Raise RuntimeError_torch
  | x :: _ =>
      let valid := filter (λ y, shape y ≠ [0]) tensors in
      let rest := match valid with [] => [] | y :: _ => tail (shape y) end in
      if (forallb (λ y, bool_decide (shape y ≠ [])) tensors
          && forallb (λ y, bool_decide (tail (shape y) = rest)) valid)%bool
      then let d := result_type tensors in
           Return {| device := device x;
                     dtype := d;
                     shape := sum_list (map (λ y, hd 0 (shape y)) tensors) :: rest;
                     data := concat (map (λ y, data (astype d y)) tensors) |}
      else Raise RuntimeError_torch
  end.

(** [tensor.view(n, -1)] *)
Definition view (x : Tensor) (n : nat) : outcome Tensor :=
  let numel := length (data x) in
  if decide (n ≠ 0 ∧ numel `mod` n = 0)
  then Return {| device := device x; dtype := dtype x;
                 shape := [n; numel `div` n]; data := data x |}
  else Raise RuntimeError_torch.

End Torch.

Import (coercions) Torch.
Import Torch (SInt, SFloat, SBool).

Abbreviation Tensor := Torch.Tensor.
Abbreviation Scalar := Torch.Scalar.

(** ** Transitions *)

Module Transition.

(** What an attribute of a transition holds. *)
Inductive value :=
| VScalar (s : Scalar)
| VTensor (x : Tensor)
| VDict (d : list (string * Tensor)).

#[global] Instance value_eq_dec : EqDecision value.
Proof. solve_decision. Defined.

(** Modelled from the spec: the [Transition] class ([transition.py] is not
    among the sources). A record holds three attribute categories, each a
    mapping kept in its key order: [major] maps an attribute name to a
    mapping from sub-key to tensor, [sub] and [custom] map a name to a
    single value. *)
Record Transition := mkTransition {
  major : list (string * list (string * Tensor));
  sub : list (string * value);
  custom : list (string * value)
}.

#[global] Instance Transition_eq_dec : EqDecision Transition.
Proof. solve_decision. Defined.

Definition major_attr (t : Transition) : list string := (major t).*1.
Definition sub_attr (t : Transition) : list string := (sub t).*1.
Definition custom_attr (t : Transition) : list string := (custom t).*1.

(** Modelled from the spec: [keys()] lists all attribute names present on
    the record, in its natural key order. *)
Definition keys (t : Transition) : list string :=
  major_attr t ++ sub_attr t ++ custom_attr t.

(** Modelled from the spec: [has_keys(names)] holds when the record
    exposes every name across its major and sub attributes. *)
Definition has_keys (t : Transition) (names : list string) : bool :=
  forallb (λ k, bool_decide (k ∈ major_attr t ++ sub_attr t)) names.

(** The first binding of a key in a mapping. *)
Fixpoint lookup_key {V} (k : string) (m : list (string * V)) : option V :=
  match m with
  | [] => None
  | (k', v) :: m' => if decide (k' = k) then Some v else lookup_key k m'
  end.

(** The same keys in the same order, every value changed by [f]. *)
Definition map_values {V W} (f : V → W) (m : list (string * V)) : list (string * W) :=
  map (λ kv, (kv.1, f kv.2)) m.

Definition value_to (dev : string) (v : value) : value :=
  match v with
  | VScalar s => VScalar s
  | VTensor x => VTensor (Torch.to dev x)
  | VDict d => VDict (map_values (Torch.to dev) d)
  end.

(** Modelled from the spec: [to(device)] relocates every array-like value
    inside the record. *)
Definition to (dev : string) (t : Transition) : Transition :=
  {| major := map_values (map_values (Torch.to dev)) (major t);
     sub := map_values (value_to dev) (sub t);
     custom := map_values (value_to dev) (custom t) |}.

(** The array-like values inside a value and inside a record. *)
Definition value_tensors (v : value) : list Tensor :=
  match v with
  | VScalar _ => []
  | VTensor x => [x]
  | VDict d => d.*2
  end.

Definition tensors (t : Transition) : list Tensor :=
  concat (map (λ kv, kv.2.*2) (major t))
  ++ concat (map (λ kv, value_tensors kv.2) (sub t))
  ++ concat (map (λ kv, value_tensors kv.2) (custom t)).

(** Modelled from the spec: [transition[attr]], a major attribute before a
    sub attribute before a custom one. *)
Definition getitem (t : Transition) (attr : string) : outcome value :=
  match lookup_key attr (major t) with
  | Some d => Return (VDict d)
  | None =>
      match lookup_key attr (sub t) with
      | Some v => Return v
      | None =>
          match lookup_key attr (custom t) with
          | Some v => Return v
          | None => Raise (KeyError attr)
          end
      end
  end.

(** [value[sub_k]] on what [transition[attr]] returned. *)
Definition value_getitem (v : value) (sub_k : string) : outcome Tensor :=
  match v with
  | VDict d =>
      match lookup_key sub_k d with
      | Some x => Return x
      | None => Raise (KeyError sub_k)
      end
  | _ => Raise TypeError
  end.

End Transition.

Abbreviation Transition := Transition.Transition.
Abbreviation value := Transition.value.
Import Transition (VScalar, VTensor, VDict).

(** ** The object store, the random source and the monad *)

Module Buffer.

(** Addresses of transition objects. *)
Abbreviation addr := nat (only parsing).

(** The fields of a [Buffer] object. *)
Record Buffer := mkBuffer {
  buffer_size : nat;
  buffer_device : string;
  buffer : list addr;
  index : nat
}.

#[global] Instance Buffer_eq_dec : EqDecision Buffer.
Proof. solve_decision. Defined.

(** [Buffer(buffer_size, buffer_device)] *)
Definition init (buffer_size : nat) (buffer_device : string) : Buffer :=
  {| buffer_size := buffer_size; buffer_device := buffer_device;
     buffer := []; index := 0 |}.

(** The buffer object, the transition objects by address, and the numbers
    the random generator will produce. *)
Record World := mkWorld {
  self : Buffer;
  heap : list Transition;
  rng : list nat
}.

Definition M (A : Type) : Type := World → outcome A * World.

Definition M_ret {A} (a : A) : M A := λ w, (Return a, w).

Definition M_bind {A B} (f : A → M B) (m : M A) : M B :=
  λ w, match m w with
       | (Return a, w') => f a w'
       | (Raise e, w') => (Raise e, w')
       end.

#[global] Instance M_mret : MRet M := @M_ret.
#[global] Instance M_mbind : MBind M := @M_bind.

Definition lift {A} (o : outcome A) : M A := λ w, (o, w).
Definition raise {A} (e : exn) : M A := lift (Raise e).

Definition get_self : M Buffer := λ w, (Return (self w), w).

Definition set_buffer (l : list addr) : M unit :=
  λ w, (Return (),
        {| self := {| buffer_size := buffer_size (self w);
                      buffer_device := buffer_device (self w);
                      buffer := l; index := index (self w) |};
           heap := heap w; rng := rng w |}).

Definition set_index (i : nat) : M unit :=
  λ w, (Return (),
        {| self := {| buffer_size := buffer_size (self w);
                      buffer_device := buffer_device (self w);
                      buffer := buffer (self w); index := i |};
           heap := heap w; rng := rng w |}).

(** The object at an address. *)
Definition deref (a : addr) : M Transition :=
  λ w, match heap w !! a with
       | Some t => (Return t, w)
       | None => (Raise SystemError, w)
       end.

(** Change the object at an address in place. *)
Definition modify (a : addr) (f : Transition → Transition) : M unit :=
  λ w, match heap w !! a with
       | Some t => (Return (),
                    {| self := self w; heap := <[a := f t]> (heap w); rng := rng w |})
       | None => (Raise SystemError, w)
       end.

(** A new object. *)
Definition alloc (t : Transition) : M addr :=
  λ w, (Return (length (heap w)),
        {| self := self w; heap := heap w ++ [t]; rng := rng w |}).

(** The next number of the random source. *)
Definition draw : M nat :=
  λ w, match rng w with
       | [] => (Return 0, w)
       | r :: rest => (Return r, {| self := self w; heap := heap w; rng := rest |})
       end.

(** [random.sample(population, k)]: [k] elements from distinct positions,
    each taken out of what is left. *)
Fixpoint pick {A} (k : nat) (pool : list A) : M (list A) :=
  match k with
  | 0 => mret []
  | S k' =>
      r ← draw;
      let j := r `mod` length pool in
      match pool !! j with
      | Some x => rest ← pick k' (delete j pool); mret (x :: rest)
      | None => mret []
      end
  end.

Definition random_sample {A} (population : list A) (k : nat) : M (list A) :=
  if decide (length population < k) then raise ValueError_random
  else pick k population.

(** [random.randint(a, b)]: a number of [a..b], an error on an empty
    range. *)
Definition random_randint (a b : Z) : M Z :=
  if decide (b < a)%Z then raise ValueError_random
  else r ← draw; mret (a + Z.of_nat r `mod` (b - a + 1))%Z.

(** ** Admission *)

(** What [append] is handed: a plain mapping or a transition object. *)
Inductive candidate :=
| FromDict (d : list (string * value))
| Object (a : addr).

Definition default_required_attrs : list string :=
  ["state"; "action"; "next_state"; "reward"; "terminal"].

(** [size()] *)
Definition size : M nat := b ← get_self; mret (length (buffer b)).

Section Admission.

(** The constructor that turns a plain mapping into a transition; it
    belongs to the class that is not among the sources. *)
Variable Transition_new : list (string * value) → outcome Transition.

(** [if isinstance(transition, dict): transition = Transition(...)]: the
    object the rest of [append] works on. *)
Definition as_transition (transition : candidate) : M addr :=
  match transition with
  | FromDict d => t ← lift (Transition_new d); alloc t
  | Object a => mret a
  end.

(** [append(transition, required_attrs)] *)
Definition append (transition : candidate) (required_attrs : list string) : M nat :=
  transition ← as_transition transition;
  t ← deref transition;
  if negb (Transition.has_keys t required_attrs) then
    let missing_keys : gset string :=
      list_to_set required_attrs ∖ list_to_set (Transition.keys t) in
    raise (ValueError_missing_attributes missing_keys)
  else
    b ← get_self;
    modify transition (Transition.to (buffer_device b));;
    n ← size;
    (if decide (n ≠ 0) then
       first ← lift (Py.getitem (buffer b) 0);
       t0 ← deref first;
       t ← deref transition;
       if decide (Transition.keys t0 ≠ Transition.keys t)
       then raise ValueError_different_attributes
       else mret ()
     else mret ());;
    n ← size;
    (if decide (buffer_size b < n) then
       (* trim buffer to buffer_size *)
       set_buffer (drop (n - buffer_size b) (buffer b))
     else mret ());;
    n ← size;
    if decide (n = buffer_size b) then
      (* ring buffer storage *)
      b ← get_self;
      let position := index b in
      l ← lift (Py.setitem (buffer b) (index b) transition);
      set_buffer l;;
      set_index (index b + 1);;
      (if decide (buffer_size b = 0) then raise ZeroDivisionError
       else set_index ((index b + 1) `mod` buffer_size b));;
      mret position
    else
      (* append if not full *)
      b ← get_self;
      set_buffer (buffer b ++ [transition]);;
      mret (length (buffer b ++ [transition]) - 1).

End Admission.

(** [clear()] *)
Definition clear : M unit := set_buffer [].

(** ** Sampling strategies *)

(** A strategy maps the item list and the requested batch size, a count,
    to a batch and its size; it may consult the random source. *)
Definition strategy : Type := list addr → nat → M (list addr * nat).

(** [sample_method_random_unique(buffer, batch_size)] *)
Definition sample_method_random_unique : strategy := λ buffer batch_size,
  if decide (length buffer < batch_size) then
    batch ← random_sample buffer (length buffer);
    mret (batch, length buffer)
  else
    batch ← random_sample buffer batch_size;
    mret (batch, batch_size).

(** [sample_method_random(buffer, batch_size)] *)
Definition sample_method_random : strategy := λ buffer batch_size,
  indexes ← mapM (λ _ : nat, random_randint 0 (Z.of_nat (length buffer) - 1))
                 (seq 0 batch_size);
  batch ← lift (mapM (Py.getitem buffer) indexes);
  mret (batch, batch_size).

(** [sample_method_all(buffer, _)] *)
Definition sample_method_all : strategy := λ buffer _,
  mret (buffer, length buffer).

(** [getattr(self, name)] restricted to the sampling methods of the
    class; [None] is [hasattr] answering false. *)
Definition getattr_sample_method (name : string) : option strategy :=
  if decide (name = "sample_method_random_unique") then Some sample_method_random_unique
  else if decide (name = "sample_method_random") then Some sample_method_random
  else if decide (name = "sample_method_all") then Some sample_method_all
  else None.

(** ** Batch post-processing *)

(** What [make_tensor_from_batch] returns: [None], a tensor, or the batch
    it was given. *)
Inductive stacked :=
| SNone
| STensor (x : Tensor)
| SBatch (batch : list value).

(** One entry of the result of [post_process_batch]. *)
Inductive resolved :=
| RDict (tmp_dict : list (string * stacked))
| RVal (s : stacked).

Definition is_tensor (v : value) : bool :=
  match v with VTensor _ => true | _ => false end.

(** [it.to(device)] on an element of a batch *)
Definition value_to_device (dev : string) (v : value) : outcome Tensor :=
  match v with
  | VTensor x => Return (Torch.to dev x)
  | _ => Raise AttributeError
  end.

(** The Python scalar an element of a batch is, for [torch.tensor]: a
    tensor with one element counts as that element. *)
Definition as_scalar (v : value) : outcome Scalar :=
  match v with
  | VScalar s => Return s
  | VTensor x =>
      match Torch.data x with
      | [s] => Return s
      | _ => Raise TypeError
      end
  | VDict _ => Raise TypeError
  end.

(** [make_tensor_from_batch(batch, device, concatenate)] *)
Definition make_tensor_from_batch (batch : list value) (device : string)
    (concatenate : bool) : outcome stacked :=
  match batch with
  | [] => Return SNone
  | item :: _ =>
      if concatenate then
        let batch_size := length batch in
        if is_tensor item then
          batch ← mapM (value_to_device device) batch;
          x ← Torch.cat batch;
          Return (STensor (Torch.to device x))
        else
          scalars ← mapM as_scalar batch;
          x ← Torch.tensor scalars device;
          x ← Torch.view x batch_size;
          Return (STensor x)
      else Return (SBatch batch)
  end.

(** [d[k] = v] on a dict kept in insertion order *)
Fixpoint dict_setitem {V} (k : string) (v : V) (d : list (string * V)) : list (string * V) :=
  match d with
  | [] => [(k, v)]
  | (k', v') :: d' =>
      if decide (k' = k) then (k, v) :: d' else (k', v') :: dict_setitem k v d'
  end.

(** [for x in l: acc = body(acc, x)] with exceptions *)
Fixpoint for_each {A S} (l : list A) (body : S → A → outcome S) (acc : S) : outcome S :=
  match l with
  | [] => Return acc
  | x :: l' => acc' ← body acc x; for_each l' body acc'
  end.

(** [[item[attr] for item in batch]] *)
Definition column (batch : list Transition) (attr : string) : outcome (list value) :=
  mapM (λ item, Transition.getitem item attr) batch.

(** [post_process_batch(batch, device, concatenate, sample_attrs,
    additional_concat_attrs)] *)
Definition post_process_batch (batch : list Transition) (device : string)
    (concatenate : bool) (sample_attrs additional_concat_attrs : list string)
    : outcome (pyseq resolved) :=
  match batch with
  | [] => Return (PyList (replicate (length sample_attrs) (RVal SNone)))
  | first :: _ =>
      let major_attr := Transition.major_attr first in
      let sub_attr := Transition.sub_attr first in
      '(result, used_keys) ←
        for_each sample_attrs (λ '(result, used_keys) attr,
          if decide (attr ∈ major_attr) then
            v ← Transition.getitem first attr;
            sub_keys ← match v with
                       | VDict d => Return d.*1
                       | _ => Raise AttributeError
                       end;
            tmp_dict ← for_each sub_keys (λ tmp_dict sub_k,
              col ← mapM (λ item,
                       v ← Transition.getitem item attr;
                       x ← Transition.value_getitem v sub_k;
                       Return (VTensor (Torch.to device x))) batch;
              s ← make_tensor_from_batch col device concatenate;
              Return (dict_setitem sub_k s tmp_dict)) [];
            Return (result ++ [RDict tmp_dict], used_keys ++ [attr])
          else if decide (attr ∈ sub_attr) then
            col ← column batch attr;
            s ← make_tensor_from_batch col device concatenate;
            Return (result ++ [RVal s], used_keys ++ [attr])
          else if decide (attr = "*") then
            (* select custom keys *)
            result ← for_each (Transition.keys first) (λ result remain_k,
              if decide ((remain_k ∉ major_attr) ∧ (remain_k ∉ sub_attr)
                         ∧ (remain_k ∉ used_keys)) then
                col ← column batch remain_k;
                s ← make_tensor_from_batch col device
                      (concatenate && bool_decide (attr ∈ additional_concat_attrs));
                Return (result ++ [RVal s])
              else Return result) result;
            Return (result, used_keys)
          else
            col ← column batch attr;
            s ← make_tensor_from_batch col device
                  (concatenate && bool_decide (attr ∈ additional_concat_attrs));
            Return (result ++ [RVal s], used_keys ++ [attr]))
          ([], []);
      Return (PyTuple result)
  end.

(** How [sample_batch] is told which strategy to use. *)
Inductive method :=
| ByName (name : string)
| ByFunction (f : strategy).

(** [sample_batch(batch_size, concatenate, device, sample_method,
    sample_attrs, additional_concat_attrs)]; an argument left at its
    default [None] is [None] here. *)
Definition sample_batch (batch_size : nat) (concatenate : bool)
    (device : option string) (sample_method : method)
    (sample_attrs additional_concat_attrs : option (list string))
    : M (nat * pyseq resolved) :=
  sample_method ← match sample_method with
                  | ByName name =>
                      match getattr_sample_method ("sample_method_" +:+ name) with
                      | None => raise (RuntimeError_sample_method name)
                      | Some f => mret f
                      end
                  | ByFunction f => mret f
                  end;
  b ← get_self;
  '(batch, batch_size) ← sample_method (buffer b) batch_size;
  let device := default (buffer_device b) device in
  sample_attrs ← match sample_attrs with
                 | None =>
                     first ← lift (Py.getitem batch 0);
                     t ← deref first;
                     mret (Transition.keys t)
                 | Some attrs => mret attrs
                 end;
  let additional_concat_attrs := default [] additional_concat_attrs in
  items ← mapM deref batch;
  result ← lift (post_process_batch items device concatenate
                   sample_attrs additional_concat_attrs);
  mret (batch_size, result).

End Buffer.

(** ** Records and worlds used in the examples *)

Module Examples.

Import Buffer.

Definition obs (x : Z) : Tensor :=
  {| Torch.device := "cpu"; Torch.dtype := Torch.t_int64;
     Torch.shape := [1; 2]; Torch.data := [SInt x; SInt x] |}.

(** A record with the five default attributes and nothing else; its
    reward is [r]. *)
Definition minimal (r : Z) : Transition :=
  {| Transition.major := [("state", [("obs", obs r)]);
                          ("action", [("act", obs r)]);
                          ("next_state", [("obs", obs (r + 1))])];
     Transition.sub := [("reward", VScalar r); ("terminal", VScalar 0%Z)];
     Transition.custom := [] |}.

(** The same with one custom attribute ["info"]. *)
Definition with_info (r i : Z) : Transition :=
  {| Transition.major := Transition.major (minimal r);
     Transition.sub := Transition.sub (minimal r);
     Transition.custom := [("info", VScalar i)] |}.

(** A minimal record with one more sub attribute, ["priority"]. *)
Definition with_priority (r q : Z) : Transition :=
  {| Transition.major := Transition.major (minimal r);
     Transition.sub := Transition.sub (minimal r) ++ [("priority", VScalar q)];
     Transition.custom := [] |}.

(** A record whose only attribute is the scalar sub attribute
    ["reward"]. *)
Definition reward_only (r : Z) : Transition :=
  {| Transition.major := [];
     Transition.sub := [("reward", VScalar r)];
     Transition.custom := [] |}.

(** The Python float [0.1], which is 7205759403792794 / 2^56, and the
    binary32 number nearest to it, 13421773 / 2^27. *)
Definition tenth : SpecFloat.spec_float :=
  SpecFloat.S754_finite false 7205759403792794 (-56).

Definition tenth32 : SpecFloat.spec_float :=
  SpecFloat.S754_finite false 13421773 (-27).

(** A record whose only attribute is the sub attribute ["reward"],
    holding any scalar. *)
Definition rewarded (s : Scalar) : Transition :=
  {| Transition.major := [];
     Transition.sub := [("reward", VScalar s)];
     Transition.custom := [] |}.

(** A constructor that accepts no mapping, for runs that hand [append]
    objects only. *)
Definition no_mapping (d : list (string * value)) : outcome Transition :=
  Raise TypeError.

(** A new buffer of capacity [n] on ["cuda:0"], with the given objects at
    addresses 0, 1, ... and the given random numbers to come. *)
Definition world (n : nat) (objects : list Transition) (numbers : list nat) : World :=
  {| self := init n "cuda:0"; heap := objects; rng := numbers |}.

(** A buffer of capacity [n] on ["cuda:0"] whose items are the objects at
    the addresses [stored], its write cursor at 0. *)
Definition holding (n : nat) (stored : list addr) (objects : list Transition) : World :=
  {| self := {| buffer_size := n; buffer_device := "cuda:0";
                buffer := stored; index := 0 |};
     heap := objects; rng := [] |}.

(** A full buffer that holds the given objects in order. *)
Definition filled (objects : list Transition) : World :=
  holding (length objects) (seq 0 (length objects)) objects.

(** [append] of the object at each address in turn, default required
    attributes. *)
Fixpoint append_all (addrs : list addr) : M unit :=
  match addrs with
  | [] => mret ()
  | a :: rest =>
      append no_mapping (Object a) default_required_attrs;; append_all rest
  end.

(** A buffer of capacity 2 that holds one minimal record, already on the
    buffer's device, next to two objects that are not stored: a record with
    one more sub attribute and a record with no attribute but its reward. *)
Definition one_stored : World :=
  holding 2 [0] [Transition.to "cuda:0" (minimal 1); with_priority 2 9; reward_only 3].

(** Three appends, then [size()] and [sample_batch(2, sample_method="all")]. *)
Definition scenario : M (nat * (nat * pyseq resolved)) :=
  append_all [0; 1; 2];;
  n ← size;
  s ← sample_batch 2 true None (ByName "all") None None;
  mret (n, s).

End Examples.

(** ** Predicates of the statements *)

Module Props.

Import Buffer.

(** The buffer of [w] holds, in storage order, records whose only sub
    attribute is ["reward"], with the scalar values [rs], and where
    ["reward"] is not the name of a major attribute. *)
Definition stores_rewards (w : World) (rs : list Scalar) : Prop :=
  Forall2 (λ a r, ∃ t, heap w !! a = Some t
                    ∧ Transition.sub t = [("reward", VScalar r)]
                    ∧ "reward" ∉ Transition.major_attr t)
          (buffer (self w)) rs.

(** One column on [device]: as many rows as [data] has elements, which
    are of type [d]. *)
Definition column_of (device : string) (d : Torch.ScalarType) (data : list Scalar)
    : Tensor :=
  {| Torch.device := device; Torch.dtype := d;
     Torch.shape := [length data; 1]; Torch.data := data |}.

(** With a float among the scalars, every int among them is one that a
    float holds exactly: at most [2^53] in magnitude. *)
Definition ints_exact_in_floats (scalars : list Scalar) : Prop :=
  Torch.infer_scalar_type scalars = Torch.t_float32 →
  Forall (λ s, ∀ i, s = SInt i → (- 2 ^ 53 ≤ i ≤ 2 ^ 53)%Z) scalars.

(** One column of 64-bit integers on [device] holding [rs]. *)
Definition column_tensor (device : string) (rs : list Z) : Tensor :=
  column_of device Torch.t_int64 (SInt <$> rs).

End Props.

(** ** Pickling, the last part of [append], and further predicates *)

Module Pickling.

Import Buffer.

(** [__reduce__()]: the arguments the class is called on again when the
    pickled buffer is loaded. *)
Definition reduce (b : Buffer) : nat * string :=
  (buffer_size b, buffer_device b).

(** Loading: the class called on these arguments. *)
Definition rebuild (args : nat * string) : Buffer :=
  init args.1 args.2.

End Pickling.

Module Phases.

Import Buffer.

(** The part of [append] after the two checks: trim, then overwrite at the
    write cursor or extend. *)
Definition store (transition : addr) : M nat :=
  b ← get_self;
  n ← size;
  (if decide (buffer_size b < n) then
     set_buffer (drop (n - buffer_size b) (buffer b))
   else mret ());;
  n ← size;
  if decide (n = buffer_size b) then
    b ← get_self;
    let position := index b in
    l ← lift (Py.setitem (buffer b) (index b) transition);
    set_buffer l;;
    set_index (index b + 1);;
    (if decide (buffer_size b = 0) then raise ZeroDivisionError
     else set_index ((index b + 1) `mod` buffer_size b));;
    mret position
  else
    b ← get_self;
    set_buffer (buffer b ++ [transition]);;
    mret (length (buffer b ++ [transition]) - 1).

(** The world with other items and another write cursor. *)
Definition with_items (l : list addr) (i : nat) (w : World) : World :=
  {| self := {| buffer_size := buffer_size (self w);
                buffer_device := buffer_device (self w);
                buffer := l; index := i |};
     heap := heap w; rng := rng w |}.

(** The item list after the trimming step of [append]. *)
Definition trimmed (b : Buffer) : list addr :=
  if decide (buffer_size b < length (buffer b))
  then drop (length (buffer b) - buffer_size b) (buffer b)
  else buffer b.

End Phases.

Module Invariants.

Import Buffer.

(** A constructor that takes every entry of the mapping as a sub
    attribute, for runs that hand [append] a mapping. *)
Definition sub_attrs_only (d : list (string * value)) : outcome Transition :=
  Return {| Transition.major := []; Transition.sub := d; Transition.custom := [] |}.

(** No more items than the capacity, and the write cursor inside it. *)
Definition ring_inv (b : Buffer) : Prop :=
  length (buffer b) ≤ buffer_size b ∧ index b < buffer_size b.

(** The object at [a] exists, has the required attributes and the key
    list [K]. *)
Definition admissible (required_attrs K : list string)
    (objects : list Transition) (a : addr) : Prop :=
  ∃ t, objects !! a = Some t
       ∧ Transition.has_keys t required_attrs = true
       ∧ Transition.keys t = K.

(** The items from the write cursor on, then those before it: on a buffer
    filled from new, the items from the oldest to the newest. *)
Definition oldest_first (b : Buffer) : list addr :=
  drop (index b) (buffer b) ++ take (index b) (buffer b).

(** All the items of [l] are objects with one and the same key list. *)
Definition uniform_keys (objects : list Transition) (l : list addr) : Prop :=
  ∃ K, Forall (λ x, ∃ t, objects !! x = Some t ∧ Transition.keys t = K) l.

(** A computation that leaves the buffer and the stored objects alone. *)
Definition keeps_store {A} (m : M A) : Prop :=
  ∀ w, self (m w).2 = self w ∧ heap (m w).2 = heap w.

(** The keys of a record that the wildcard stands for when nothing has been
    produced yet: those that name neither a major nor a sub attribute. *)
Definition wildcard_keys (first : Transition) : list string :=
  filter (λ k, (k ∉ Transition.major_attr first) ∧ (k ∉ Transition.sub_attr first))
         (Transition.keys first).

(** The requested attribute is answered by the wildcard branch. *)
Definition is_wildcard (first : Transition) (attr : string) : Prop :=
  attr = "*" ∧ (attr ∉ Transition.major_attr first)
  ∧ (attr ∉ Transition.sub_attr first).

End Invariants.

(** * Properties *)

Import Buffer.

(** Unfolding of the monad, for symbolic execution of a method. *)
Ltac run_monad :=
  unfold size, raise;
  unfold mbind, mret, M_mbind, M_mret, M_bind, M_ret, lift,
    get_self, set_buffer, set_index;
  repeat match goal with
    | |- context [@mapM M ?b ?r] =>
        lazymatch b with
        | M_mbind => fail
        | _ => change (@mapM M b r) with (@mapM M M_mbind M_mret)
        end
    end;
  cbn [fst snd self heap rng buffer index buffer_size buffer_device].

Section Clear.

(** C4. [clear()] empties the item list, so that [size()] is 0 afterwards,
    and leaves the write cursor [index] at the value it had. After three
    appends to a buffer of capacity 2 the cursor is 1 and stays 1 across
    [clear()]; three more appends then overwrite slot 1, the newer of the
    two records, where a new buffer overwrites slot 0, the older one. *)
Theorem clear_keeps_index :
  (∀ w : World,
     buffer (self (clear w).2) = []
     ∧ (size (clear w).2).1 = Return 0
     ∧ index (self (clear w).2) = index (self w))
  ∧ (let w := Examples.world 2 (Examples.minimal <$> [1; 2; 3]%Z) [] in
     self ((Examples.append_all [0; 1; 2];; clear) w).2
       = {| buffer_size := 2; buffer_device := "cuda:0"; buffer := []; index := 1 |}
     ∧ buffer (self ((Examples.append_all [0; 1; 2];; clear;;
                      Examples.append_all [0; 1; 2]) w).2) = [0; 2]
     ∧ buffer (self (Examples.append_all [0; 1; 2] w).2) = [2; 1]).
Proof. split; [done|]. by vm_compute. Qed.

End Clear.

Section Strategies.

Lemma sample_method_name_inj (name x : string) :
  "sample_method_" +:+ name = "sample_method_" +:+ x → name = x.
Proof. intros [= H]. exact H. Qed.

Lemma getattr_sample_method_None (name : string) :
  name ≠ "random_unique" → name ≠ "random" → name ≠ "all" →
  getattr_sample_method ("sample_method_" +:+ name) = None.
Proof.
  intros H1 H2 H3. unfold getattr_sample_method.
  repeat case_decide; try done;
    match goal with
    | H : _ +:+ _ = _ |- _ => apply (sample_method_name_inj name) in H; done
    end.
Qed.

(** C8. For every selector string other than ["random_unique"],
    ["random"] and ["all"], [sample_batch] raises the error of an unknown
    sample method (a [RuntimeError] in the code), whose message carries the
    selector, and changes nothing. *)
Theorem sample_batch_unknown_method
    (name : string) (batch_size : nat) (concatenate : bool)
    (device : option string) (sample_attrs extra : option (list string))
    (w : World) :
  name ≠ "random_unique" → name ≠ "random" → name ≠ "all" →
  sample_batch batch_size concatenate device (ByName name) sample_attrs extra w
    = (Raise (RuntimeError_sample_method name), w)
  ∧ names_carried (RuntimeError_sample_method name) = {[ name ]}.
Proof.
  intros H1 H2 H3. split; [|done].
  unfold sample_batch. rewrite getattr_sample_method_None by done.
  done.
Qed.

Lemma sample_batch_unknown_method_witness :
  sample_batch 4 true None (ByName "prioritized") None None
      (Examples.world 2 [] [])
    = (Raise (RuntimeError_sample_method "prioritized"), Examples.world 2 [] [])
  ∧ names_carried (RuntimeError_sample_method "prioritized") = {[ "prioritized" ]}.
Proof. apply sample_batch_unknown_method; done. Defined.

(** Drawing random numbers moves the random source and nothing else. *)
Lemma draw_spec (w : World) :
  ∃ r w', draw w = (Return r, w') ∧ self w' = self w ∧ heap w' = heap w.
Proof. unfold draw. destruct (rng w); eauto. Qed.

Lemma pick_spec {A} (k : nat) (pool : list A) (w : World) :
  k ≤ length pool →
  ∃ batch w', pick k pool w = (Return batch, w')
    ∧ length batch = k ∧ batch ⊆+ pool
    ∧ self w' = self w ∧ heap w' = heap w.
Proof.
  revert pool w. induction k as [|k IH]; intros pool w Hk.
  - exists [], w. split_and!; try done. apply submseteq_nil_l.
  - destruct (draw_spec w) as (r & w1 & Hdraw & Hs1 & Hh1).
    assert (Hlt : r `mod` length pool < length pool)
      by (apply Nat.mod_upper_bound; lia).
    destruct (lookup_lt_is_Some_2 pool _ Hlt) as [x Hx].
    destruct (IH (delete (r `mod` length pool) pool) w1) as (rest & w2 & Hrest & Hlen & Hsub & Hs2 & Hh2).
    { rewrite length_delete by eauto. lia. }
    exists (x :: rest), w2.
    cbn [pick]. run_monad. rewrite Hdraw, Hx, Hrest.
    split_and!; [done|by cbn; f_equal| |congruence|congruence].
    rewrite (delete_Permutation pool _ x Hx). by apply submseteq_skip.
Qed.

Lemma random_sample_spec {A} (population : list A) (k : nat) (w : World) :
  k ≤ length population →
  ∃ batch w', random_sample population k w = (Return batch, w')
    ∧ length batch = k ∧ batch ⊆+ population
    ∧ self w' = self w ∧ heap w' = heap w.
Proof.
  intros Hk. unfold random_sample. case_decide; [lia|]. by apply pick_spec.
Qed.







(** C7. On an empty item list the [random] strategy raises the error of
    the random-integer draw as soon as one item is asked for, and changes
    nothing; asked for no item it draws nothing and returns the empty batch
    with size 0. *)
Theorem sample_method_random_empty (n : nat) (w : World) :
  sample_method_random [] (S n) w = (Raise ValueError_random, w)
  ∧ sample_method_random [] 0 w = (Return ([], 0), w).
Proof. done. Qed.

(** C7, as stated, fails at [batch_size = 0]: no error is raised. *)
Lemma sample_method_random_empty_no_error :
  ¬ ∃ e w', sample_method_random [] 0 (Examples.world 2 [] []) = (Raise e, w').
Proof. intros (e & w' & H). discriminate H. Qed.

End Strategies.

Section Stacking.

Lemma mapM_outcome_length {A B} (f : A → outcome B) (l : list A) (ys : list B) :
  mapM f l = Return ys → length ys = length l.
Proof.
  revert ys. induction l as [|x l IH]; intros ys; cbn [mapM].
  - by intros [= <-].
  - destruct (f x) as [y|e]; cbn; [|done].
    destruct (mapM f l) as [k|e]; cbn; [|done].
    intros [= <-]. cbn. f_equal. by apply IH.
Qed.

Lemma as_scalar_scalars (rs : list Scalar) :
  mapM as_scalar (VScalar <$> rs) = Return rs.
Proof.
  induction rs as [|r rs IH]; [done|].
  cbn [fmap list_fmap mapM]. cbn in IH. rewrite IH. done.
Qed.

(** Stacking scalars: the conversion of [torch.tensor], then one column
    on the target device. *)
Lemma make_tensor_from_batch_scalars (scalars : list Scalar) (device : string) :
  scalars ≠ [] →
  make_tensor_from_batch (VScalar <$> scalars) device true
    = data ← mapM (Torch.store_scalar (Torch.infer_scalar_type scalars)) scalars;
      Return (STensor (Props.column_of device (Torch.infer_scalar_type scalars) data)).
Proof.
  intros Hrs. destruct scalars as [|r rs]; [done|].
  pose proof (as_scalar_scalars (r :: rs)) as Hs.
  assert (Hlen : length (VScalar <$> r :: rs) = length (r :: rs))
    by apply length_fmap.
  unfold make_tensor_from_batch.
  change (VScalar <$> r :: rs) with (VScalar r :: (VScalar <$> rs)) in *.
  cbn [is_tensor]. rewrite Hs, Hlen. cbn [mbind outcome_mbind outcome_bind].
  unfold Torch.tensor.
  destruct (mapM _ (r :: rs)) as [data|e] eqn:Hdata;
    cbn [mbind outcome_mbind outcome_bind]; [|done].
  apply mapM_outcome_length in Hdata.
  unfold Torch.view, Props.column_of. cbn [Torch.data Torch.device Torch.dtype].
  rewrite Hdata. case_decide as Hd.
  - by rewrite Nat.div_same.
  - exfalso. apply Hd. split; [done|]. apply Nat.Div0.mod_same.
Qed.

(** The element type inferred for ints only, for floats only and for
    bools only. *)
Lemma infer_scalar_type_ints (rs : list Z) :
  rs ≠ [] → Torch.infer_scalar_type (SInt <$> rs) = Torch.t_int64.
Proof.
  destruct rs as [|r rs]; [done|]. intros _. cbn.
  induction rs as [|r' rs IH]; [done|]. cbn. by rewrite IH.
Qed.

Lemma infer_scalar_type_floats (xs : list SpecFloat.spec_float) :
  Torch.infer_scalar_type (SFloat <$> xs) = Torch.t_float32.
Proof. by destruct xs. Qed.

Lemma infer_scalar_type_bools (bs : list bool) :
  bs ≠ [] → Torch.infer_scalar_type (SBool <$> bs) = Torch.t_bool.
Proof.
  destruct bs as [|b bs]; [done|]. intros _. cbn.
  induction bs as [|b' bs IH]; [done|]. cbn. by rewrite IH.
Qed.

Lemma fits_int64_spec (i : Z) : Torch.fits_int64 i = true ↔ Torch.in_int64 i.
Proof. unfold Torch.fits_int64, Torch.in_int64. lia. Qed.

(** What is stored for ints in 64-bit elements, for floats in 32-bit
    floating elements, and for bools in bool elements. *)
Lemma store_scalar_ints (rs : list Z) :
  Forall Torch.in_int64 rs →
  mapM (Torch.store_scalar Torch.t_int64) (SInt <$> rs) = Return (SInt <$> rs).
Proof.
  induction 1 as [|r rs Hr _ IH]; [done|].
  cbn [fmap list_fmap mapM Torch.store_scalar]. cbn in IH.
  apply fits_int64_spec in Hr. by rewrite Hr, IH.
Qed.

Lemma store_scalar_ints_overflow (rs : list Z) :
  Exists (λ i, ¬ Torch.in_int64 i) rs →
  mapM (Torch.store_scalar Torch.t_int64) (SInt <$> rs) = Raise RuntimeError_overflow.
Proof.
  induction rs as [|r rs IH]; intros Hex; [by apply Exists_nil in Hex|].
  cbn [fmap list_fmap mapM Torch.store_scalar]. cbn in IH.
  destruct (Torch.fits_int64 r) eqn:Hr; [|done].
  apply fits_int64_spec in Hr.
  apply Exists_cons in Hex as [?|Hex]; [done|]. by rewrite IH.
Qed.

Lemma store_scalar_floats (xs : list SpecFloat.spec_float) :
  mapM (Torch.store_scalar Torch.t_float32) (SFloat <$> xs)
    = Return (SFloat <$> (Torch.float32_of_float <$> xs)).
Proof.
  induction xs as [|x xs IH]; [done|].
  cbn [fmap list_fmap mapM Torch.store_scalar]. cbn in IH. by rewrite IH.
Qed.

Lemma store_scalar_bools (bs : list bool) :
  mapM (Torch.store_scalar Torch.t_bool) (SBool <$> bs) = Return (SBool <$> bs).
Proof.
  induction bs as [|b bs IH]; [done|].
  cbn [fmap list_fmap mapM Torch.store_scalar]. cbn in IH. by rewrite IH.
Qed.

(** [torch.tensor] on a list of scalars raises nothing but the two
    overflow errors: an element of the inferred type is never handed a
    scalar it has no conversion for. *)
Lemma tensor_raises (scalars : list Scalar) (device : string) (e : exn) :
  Torch.tensor scalars device = Raise e →
  e = RuntimeError_overflow ∨ e = OverflowError.
Proof.
  unfold Torch.tensor.
  assert (Hbool : ∀ l,
            foldr (λ s, Torch.promote_types (Torch.scalar_type s)) Torch.t_bool l
              = Torch.t_bool →
            Forall (λ s, ∃ b, s = SBool b) l).
  { induction l as [|s l IH]; [done|]. cbn [foldr].
    destruct s as [i|x|b]; cbn; try done; repeat case_match; try done.
    intros _. constructor; [by eexists|]. by apply IH. }
  assert (Hint : ∀ l,
            foldr (λ s, Torch.promote_types (Torch.scalar_type s)) Torch.t_bool l
              ≠ Torch.t_float32 →
            Forall (λ s, ∀ x, s ≠ SFloat x) l).
  { induction l as [|s l IH]; [done|]. cbn [foldr].
    destruct s as [i|x|b]; cbn; try done; repeat case_match; try done;
      intros _; (constructor; [done|]); apply IH; congruence. }
  assert (Hrun : ∀ d l,
            (d = Torch.t_bool → Forall (λ s, ∃ b, s = SBool b) l) →
            (d = Torch.t_int64 → Forall (λ s, ∀ x, s ≠ SFloat x) l) →
            mapM (Torch.store_scalar d) l = Raise e →
            e = RuntimeError_overflow ∨ e = OverflowError).
  { intros d. induction l as [|s l IH]; [done|]. intros Hb Hi. cbn [mapM].
    destruct (Torch.store_scalar d s) as [s'|e'] eqn:Hs; cbn.
    - destruct (mapM _ l) as [l'|e'] eqn:Hl; cbn; [done|]. intros [= ->].
      apply IH; [| |done]; intros Hd.
      + by eapply Forall_inv_tail, Hb.
      + by eapply Forall_inv_tail, Hi.
    - intros [= ->]. destruct d, s as [i|x|b]; cbn in Hs; simplify_eq.
      + by destruct (Forall_inv (Hb eq_refl)).
      + by destruct (Forall_inv (Hb eq_refl)).
      + destruct (Torch.fits_int64 i); simplify_eq. by left.
      + by destruct (Forall_inv (Hi eq_refl) x).
      + unfold Torch.float_of_int in Hs.
        destruct (SpecFloat.binary_normalize _ _ _ _ _); cbn in Hs; simplify_eq.
        by right. }
  destruct (mapM _ scalars) as [data|e'] eqn:Hdata; cbn; [done|]. intros [= ->].
  destruct scalars as [|s scalars]; [done|].
  eapply Hrun; [| |exact Hdata]; cbn [Torch.infer_scalar_type].
  - apply Hbool.
  - intros Hd. apply Hint. by rewrite Hd.
Qed.

(** A non-empty list of ints within 64 bits is stacked to the column of
    these ints. *)
Lemma make_tensor_from_batch_ints (rs : list Z) (device : string) :
  rs ≠ [] → Forall Torch.in_int64 rs →
  make_tensor_from_batch (VScalar <$> (SInt <$> rs)) device true
    = Return (STensor (Props.column_tensor device rs)).
Proof.
  intros Hrs Hfit.
  rewrite make_tensor_from_batch_scalars by (by destruct rs).
  by rewrite infer_scalar_type_ints, store_scalar_ints.
Qed.

Lemma getattr_sample_method_all :
  getattr_sample_method ("sample_method_" +:+ "all") = Some sample_method_all.
Proof. done. Qed.

Lemma getattr_sample_method_random_unique :
  getattr_sample_method ("sample_method_" +:+ "random_unique")
    = Some sample_method_random_unique.
Proof. done. Qed.

(** Reading the objects of a batch changes nothing. *)
Lemma mapM_deref (w : World) (batch : list addr) (items : list Transition) :
  Forall2 (λ a t, heap w !! a = Some t) batch items →
  mapM deref batch w = (Return items, w).
Proof.
  induction 1 as [|a t batch items Ha _ IH]; [done|].
  cbn [mapM]. run_monad. unfold deref at 1. by rewrite Ha, IH.
Qed.

Lemma lookup_key_None {V} (k : string) (m : list (string * V)) :
  k ∉ m.*1 → Transition.lookup_key k m = None.
Proof.
  induction m as [|[k' v] m IH]; [done|].
  cbn. intros Hk. case_decide as Heq.
  - subst. exfalso. apply Hk. left.
  - apply IH. intros Hin. apply Hk. by right.
Qed.

Lemma getitem_reward (t : Transition) (r : Scalar) :
  Transition.sub t = [("reward", VScalar r)] →
  "reward" ∉ Transition.major_attr t →
  Transition.getitem t "reward" = Return (VScalar r).
Proof.
  intros Hsub Hmajor. unfold Transition.getitem.
  rewrite (lookup_key_None _ _ Hmajor), Hsub. cbn [Transition.lookup_key].
  by case_decide.
Qed.

Lemma column_rewards (items : list Transition) (rs : list Scalar) :
  Forall2 (λ t r, Transition.sub t = [("reward", VScalar r)]
                  ∧ "reward" ∉ Transition.major_attr t) items rs →
  column items "reward" = Return (VScalar <$> rs).
Proof.
  unfold column.
  induction 1 as [|t r items rs [Hsub Hmajor] _ IH]; [done|].
  cbn [mapM]. rewrite (getitem_reward t r Hsub Hmajor), IH. done.
Qed.

Lemma post_process_batch_rewards (items : list Transition) (rs : list Scalar)
    (device : string) (extra : list string) :
  rs ≠ [] →
  Forall2 (λ t r, Transition.sub t = [("reward", VScalar r)]
                  ∧ "reward" ∉ Transition.major_attr t) items rs →
  post_process_batch items device true ["reward"] extra
    = stacked ← make_tensor_from_batch (VScalar <$> rs) device true;
      Return (PyTuple [RVal stacked]).
Proof.
  intros Hrs Hitems. pose proof (column_rewards _ _ Hitems) as Hcol.
  destruct Hitems as [|first r items rs [Hsub Hmajor] Hrest]; [done|].
  unfold post_process_batch. cbn [for_each].
  case_decide; [done|].
  case_decide as Hin.
  - rewrite Hcol. cbn [mbind outcome_mbind outcome_bind].
    by destruct (make_tensor_from_batch _ _ _).
  - exfalso. apply Hin. unfold Transition.sub_attr. rewrite Hsub. left.
Qed.

Lemma stores_rewards_items (w : World) (rs : list Scalar) :
  Props.stores_rewards w rs →
  ∃ items, Forall2 (λ a t, heap w !! a = Some t) (buffer (self w)) items
    ∧ Forall2 (λ t r, Transition.sub t = [("reward", VScalar r)]
                      ∧ "reward" ∉ Transition.major_attr t) items rs.
Proof.
  unfold Props.stores_rewards. generalize (buffer (self w)).
  induction 1 as [|a r l rs (t & Ht & Hsub & Hmajor) _ (items & H1 & H2)].
  - by exists [].
  - exists (t :: items). split; by constructor.
Qed.

(** C9. The stacking rule: [None] for an empty list; the list itself when
    concatenation is disabled; for scalars with concatenation enabled, the
    scalars are converted as [torch.tensor] converts them, in order, and on
    success the result is one tensor of shape [(N, 1)] on the target device
    holding the converted values. Ints within 64 bits are kept as they are
    and an int outside 64 bits raises the overflow error; floats become the
    nearest binary32 numbers; bools are kept. For a list that mixes the
    kinds the statement leaves out ints beyond [2^53] next to a float.
    In particular, when the stored records have the sole sub attribute
    ["reward"] with scalars [r_1 .. r_n] ([n ≥ 1]), sampling all of them
    with concatenation applies the rule to the [r_i] in storage order,
    returns size [n], and changes nothing. *)
Theorem stacking_rule (device : string) :
  (∀ concatenate, make_tensor_from_batch [] device concatenate = Return SNone)
  ∧ (∀ batch, batch ≠ [] →
       make_tensor_from_batch batch device false = Return (SBatch batch))
  ∧ (∀ scalars, scalars ≠ [] → Props.ints_exact_in_floats scalars →
       make_tensor_from_batch (VScalar <$> scalars) device true
         = data ← mapM (Torch.store_scalar (Torch.infer_scalar_type scalars)) scalars;
           Return (STensor (Props.column_of device
                              (Torch.infer_scalar_type scalars) data)))
  ∧ (∀ rs : list Z, rs ≠ [] → Forall Torch.in_int64 rs →
       make_tensor_from_batch (VScalar <$> (SInt <$> rs)) device true
         = Return (STensor (Props.column_tensor device rs)))
  ∧ (∀ rs : list Z, Exists (λ i, ¬ Torch.in_int64 i) rs →
       make_tensor_from_batch (VScalar <$> (SInt <$> rs)) device true
         = Raise RuntimeError_overflow)
  ∧ (∀ xs : list SpecFloat.spec_float, xs ≠ [] →
       make_tensor_from_batch (VScalar <$> (SFloat <$> xs)) device true
         = Return (STensor (Props.column_of device Torch.t_float32
                              (SFloat <$> (Torch.float32_of_float <$> xs)))))
  ∧ (∀ bs : list bool, bs ≠ [] →
       make_tensor_from_batch (VScalar <$> (SBool <$> bs)) device true
         = Return (STensor (Props.column_of device Torch.t_bool (SBool <$> bs))))
  ∧ (∀ (w : World) (rs : list Scalar) (batch_size : nat)
       (target : option string) (extra : option (list string)),
       rs ≠ [] → Props.stores_rewards w rs →
       sample_batch batch_size true target (ByName "all")
                    (Some ["reward"]) extra w
         = (stacked ← make_tensor_from_batch (VScalar <$> rs)
                        (default (buffer_device (self w)) target) true;
            Return (length rs, PyTuple [RVal stacked]), w)).
Proof.
  split_and!.
  - done.
  - by intros [|item batch] ?.
  - intros scalars Hne _. by apply make_tensor_from_batch_scalars.
  - intros rs Hne Hfit. by apply make_tensor_from_batch_ints.
  - intros rs Hex.
    rewrite make_tensor_from_batch_scalars by (destruct rs; [by apply Exists_nil in Hex|done]).
    rewrite infer_scalar_type_ints by (intros ->; by apply Exists_nil in Hex).
    by rewrite store_scalar_ints_overflow.
  - intros xs Hne.
    rewrite make_tensor_from_batch_scalars by (by destruct xs).
    by rewrite infer_scalar_type_floats, store_scalar_floats.
  - intros bs Hne.
    rewrite make_tensor_from_batch_scalars by (by destruct bs).
    by rewrite infer_scalar_type_bools, store_scalar_bools.
  - intros w rs batch_size target extra Hrs Hstores.
    destruct (stores_rewards_items w rs Hstores) as (items & Hheap & Hitems).
    unfold sample_batch. rewrite getattr_sample_method_all.
    unfold sample_method_all. run_monad.
    rewrite (mapM_deref _ _ _ Hheap).
    rewrite (post_process_batch_rewards _ _ _ _ Hrs Hitems).
    rewrite (Forall2_length _ _ _ Hheap), (Forall2_length _ _ _ Hitems).
    by destruct (make_tensor_from_batch _ _ _).
Qed.

Lemma stacking_rule_witness :
  make_tensor_from_batch [VScalar 5%Z; VScalar 6%Z] "cpu" false
    = Return (SBatch [VScalar 5%Z; VScalar 6%Z])
  ∧ make_tensor_from_batch [VScalar (SBool true); VScalar 2%Z] "cpu" true
    = Return (STensor (Props.column_tensor "cpu" [1; 2]%Z))
  ∧ make_tensor_from_batch [VScalar 2%Z; VScalar (SFloat Examples.tenth)] "cpu" true
    = Return (STensor (Props.column_of "cpu" Torch.t_float32
                         [SFloat (SpecFloat.S754_finite false 8388608 (-22));
                          SFloat Examples.tenth32]))
  ∧ make_tensor_from_batch (VScalar <$> (SInt <$> [5; 6]%Z)) "cpu" true
    = Return (STensor (Props.column_tensor "cpu" [5; 6]%Z))
  ∧ make_tensor_from_batch (VScalar <$> (SInt <$> [2 ^ 63; 1]%Z)) "cpu" true
    = Raise RuntimeError_overflow
  ∧ make_tensor_from_batch (VScalar <$> (SFloat <$> [Examples.tenth])) "cpu" true
    = Return (STensor (Props.column_of "cpu" Torch.t_float32
                         [SFloat Examples.tenth32]))
  ∧ make_tensor_from_batch (VScalar <$> (SBool <$> [true; false])) "cpu" true
    = Return (STensor (Props.column_of "cpu" Torch.t_bool [SBool true; SBool false]))
  ∧ sample_batch 1 true None (ByName "all") (Some ["reward"]) None
      (Examples.filled (Examples.rewarded <$> [SInt 5; SInt 6; SInt 7]))
    = (Return (3, PyTuple [RVal (STensor (Props.column_tensor "cuda:0" [5; 6; 7]%Z))]),
       Examples.filled (Examples.rewarded <$> [SInt 5; SInt 6; SInt 7])).
Proof.
  destruct (stacking_rule "cpu")
    as (_ & Hlist & Hscalars & Hints & Hover & Hfloats & Hbools & Hsample).
  split_and!.
  - by apply Hlist.
  - assert (Hexact : Props.ints_exact_in_floats [SBool true; SInt 2])
      by (intros Hd; by vm_compute in Hd).
    pose proof (Hscalars [SBool true; SInt 2] ltac:(done) Hexact) as H.
    vm_compute in H |- *. exact H.
  - assert (Hexact : Props.ints_exact_in_floats [SInt 2; SFloat Examples.tenth]).
    { intros _. apply Forall_cons. split; [intros i [= <-]; lia|].
      apply Forall_cons. split; [by intros i [=]|]. apply Forall_nil_2. }
    pose proof (Hscalars [SInt 2; SFloat Examples.tenth] ltac:(done) Hexact) as H.
    vm_compute in H |- *. exact H.
  - apply Hints; [done|]. repeat constructor; unfold Torch.in_int64; lia.
  - apply Hover. left. unfold Torch.in_int64. lia.
  - pose proof (Hfloats [Examples.tenth] ltac:(done)) as H.
    vm_compute in H |- *. exact H.
  - by apply (Hbools [true; false]).
  - refine (Hsample (Examples.filled (Examples.rewarded <$> [SInt 5; SInt 6; SInt 7]))
                     [SInt 5; SInt 6; SInt 7] 1 None None _ _); [done|].
    repeat constructor; eexists; (split_and!; [done..|]);
      apply not_elem_of_nil.
Defined.

(** C9, as stated, fails in two ways. For the ints [2^63] and 1 no
    array comes back: the conversion raises. For the float [0.1] the entry
    of the column is the nearest binary32 number, which is not [0.1]. *)
Lemma stacking_rule_as_stated_fails :
  (¬ ∃ x, make_tensor_from_batch [VScalar (2 ^ 63)%Z; VScalar 1%Z] "cpu" true
            = Return (STensor x))
  ∧ (¬ ∃ x, make_tensor_from_batch [VScalar (SFloat Examples.tenth)] "cpu" true
              = Return (STensor x)
            ∧ Torch.data x !! 0 = Some (SFloat Examples.tenth)).
Proof.
  split.
  - intros (x & Hx). vm_compute in Hx. discriminate Hx.
  - intros (x & Hx & Hentry). vm_compute in Hx. injection Hx as <-.
    vm_compute in Hentry. discriminate Hentry.
Qed.

(** The wildcard decides on concatenation by looking up ["*"] itself among
    the additional attributes: which custom names are listed there makes no
    difference. *)
Lemma wildcard_concatenation_gate (batch : list Transition) (device : string)
    (concatenate : bool) (extra extra' : list string) :
  ("*" ∈ extra ↔ "*" ∈ extra') →
  post_process_batch batch device concatenate ["*"] extra
    = post_process_batch batch device concatenate ["*"] extra'.
Proof.
  intros Hiff. destruct batch as [|first batch]; [done|].
  unfold post_process_batch. cbn [for_each].
  by rewrite (bool_decide_ext _ _ Hiff).
Qed.

(** C3. Two stored records with the custom attribute ["info"] holding 7
    and 8, sampled with the wildcard and concatenation enabled. Listing
    ["info"] among the additional attributes leaves the values as a list;
    listing ["*"] there stacks them; asking for ["info"] by name, with
    ["info"] listed, stacks them as well. *)
Theorem wildcard_ignores_additional_concat_attrs :
  let w := Examples.filled [Examples.with_info 1 7; Examples.with_info 2 8] in
  sample_batch 2 true None (ByName "all") (Some ["*"]) (Some ["info"]) w
    = (Return (2, PyTuple [RVal (SBatch [VScalar 7%Z; VScalar 8%Z])]), w)
  ∧ sample_batch 2 true None (ByName "all") (Some ["*"]) (Some ["*"]) w
    = (Return (2, PyTuple [RVal (STensor (Props.column_tensor "cuda:0" [7; 8]%Z))]), w)
  ∧ sample_batch 2 true None (ByName "all") (Some ["info"]) (Some ["info"]) w
    = (Return (2, PyTuple [RVal (STensor (Props.column_tensor "cuda:0" [7; 8]%Z))]), w).
Proof. split_and!; by vm_compute. Qed.

End Stacking.

Section EmptyBuffer.

Lemma random_sample_nil {A} (w : World) :
  random_sample (@nil A) 0 w = (Return [], w).
Proof. done. Qed.

Lemma sample_method_random_unique_nil (batch_size : nat) (w : World) :
  sample_method_random_unique [] batch_size w = (Return ([], 0), w).
Proof.
  unfold sample_method_random_unique. case_decide as Hlt.
  - run_monad. by rewrite random_sample_nil.
  - cbn in Hlt. assert (batch_size = 0) as -> by lia. done.
Qed.

(** C1. On an empty item list, under [random_unique] or [all]:
    with a list of requested attributes, [sample_batch] returns size 0 and
    one [None] per requested attribute (as a list) and changes nothing;
    with no list of requested attributes it raises [IndexError], at
    [batch[0].keys()]. *)
Theorem sample_batch_empty (w : World) (name : string) (batch_size : nat)
    (concatenate : bool) (device : option string) (extra : option (list string)) :
  buffer (self w) = [] →
  name = "random_unique" ∨ name = "all" →
  (∀ attrs,
     sample_batch batch_size concatenate device (ByName name) (Some attrs) extra w
       = (Return (0, PyList (replicate (length attrs) (RVal SNone))), w))
  ∧ sample_batch batch_size concatenate device (ByName name) None extra w
      = (Raise IndexError, w).
Proof.
  intros Hbuf [-> | ->]; unfold sample_batch.
  - rewrite getattr_sample_method_random_unique. run_monad.
    rewrite Hbuf, sample_method_random_unique_nil. done.
  - rewrite getattr_sample_method_all. unfold sample_method_all. run_monad.
    rewrite Hbuf. done.
Qed.

Lemma sample_batch_empty_witness :
  (∀ attrs,
     sample_batch 5 true None (ByName "random_unique") (Some attrs) None
        (Examples.world 2 [] [])
       = (Return (0, PyList (replicate (length attrs) (RVal SNone))),
          Examples.world 2 [] []))
  ∧ sample_batch 5 true None (ByName "random_unique") None None
        (Examples.world 2 [] [])
      = (Raise IndexError, Examples.world 2 [] []).
Proof. apply sample_batch_empty; [done|by left]. Defined.

End EmptyBuffer.

Section AdmissionErrors.

Variable Transition_new : list (string * value) → outcome Transition.

Lemma keys_to (device : string) (t : Transition) :
  Transition.keys (Transition.to device t) = Transition.keys t.
Proof.
  unfold Transition.keys, Transition.major_attr, Transition.sub_attr,
    Transition.custom_attr, Transition.to, Transition.map_values.
  cbn. by rewrite <- !list_fmap_compose.
Qed.

Lemma map_values_tensors (device : string) (d : list (string * Tensor)) :
  Forall (λ x, Torch.device x = device)
         (Transition.map_values (Torch.to device) d).*2.
Proof. induction d as [|[k x] d IH]; by constructor. Qed.

Lemma value_to_tensors (device : string) (v : value) :
  Forall (λ x, Torch.device x = device)
         (Transition.value_tensors (Transition.value_to device v)).
Proof.
  destruct v as [s|x|d]; cbn.
  - constructor.
  - by repeat constructor.
  - apply map_values_tensors.
Qed.

(** After [to(device)] every array-like value of the record is on
    [device]. *)
Lemma tensors_to (device : string) (t : Transition) :
  Forall (λ x, Torch.device x = device)
         (Transition.tensors (Transition.to device t)).
Proof.
  unfold Transition.tensors, Transition.to. cbn.
  rewrite !Forall_app. split_and!; apply Forall_concat, Forall_fmap.
  - induction (Transition.major t) as [|[k d] m IH]; constructor; [|done].
    apply map_values_tensors.
  - induction (Transition.sub t) as [|[k v] m IH]; constructor; [|done].
    apply value_to_tensors.
  - induction (Transition.custom t) as [|[k v] m IH]; constructor; [|done].
    apply value_to_tensors.
Qed.

(** The object [append] works on is the caller's object, or a new one
    made from the caller's mapping; the buffer is not touched. *)
Lemma as_transition_self (transition : candidate) (w w0 : World) (a : addr) :
  as_transition Transition_new transition w = (Return a, w0) →
  self w0 = self w ∧ rng w0 = rng w.
Proof.
  destruct transition as [d|a']; unfold as_transition; run_monad.
  - unfold alloc. destruct (Transition_new d); intros [= <- <-]; done.
  - by intros [= <- <-].
Qed.

(** C5. The two rejections of [append]. A candidate that lacks a
    required attribute is rejected with an error carrying the set of
    required names that are not among its keys, and nothing changes (a
    candidate given as a mapping has been made into a new object). When the
    buffer is not empty and the key list of the candidate differs from the
    key list of the first stored record, the candidate is rejected with an
    error whose message names no key; the buffer (items, size, write
    cursor) is unchanged, and the only object changed is the candidate,
    relocated to the buffer's device. *)
Theorem append_rejections (transition : candidate) (required_attrs : list string)
    (w w0 : World) (a : addr) (t : Transition) :
  as_transition Transition_new transition w = (Return a, w0) →
  heap w0 !! a = Some t →
  (Transition.has_keys t required_attrs = false →
     append Transition_new transition required_attrs w
       = (Raise (ValueError_missing_attributes
                   (list_to_set required_attrs ∖ list_to_set (Transition.keys t))),
          w0)
     ∧ self w0 = self w
     ∧ ∀ k, k ∈ required_attrs → k ∉ Transition.keys t →
         k ∈ names_carried (ValueError_missing_attributes
                   (list_to_set required_attrs ∖ list_to_set (Transition.keys t))))
  ∧ (Transition.has_keys t required_attrs = true →
     ∀ first t0,
       buffer (self w) !! 0 = Some first →
       heap w0 !! first = Some t0 →
       Transition.keys t0 ≠ Transition.keys t →
       ∃ w',
         append Transition_new transition required_attrs w
           = (Raise ValueError_different_attributes, w')
         ∧ names_carried ValueError_different_attributes = ∅
         ∧ self w' = self w
         ∧ rng w' = rng w
         ∧ heap w' = <[a := Transition.to (buffer_device (self w)) t]> (heap w0)).
Proof.
  intros Has Ht. destruct (as_transition_self _ _ _ _ Has) as [Hself Hrng].
  split.
  - intros Hkeys. split_and!; [|done|].
    + unfold append. run_monad. rewrite Has. unfold deref. rewrite Ht, Hkeys. done.
    + intros k Hk Hnk. cbn. set_solver.
  - intros Hkeys first t0 Hfirst Ht0 Hne.
    assert (first ≠ a) as Hfa by (intros ->; congruence).
    exists {| self := self w;
              heap := <[a := Transition.to (buffer_device (self w)) t]> (heap w0);
              rng := rng w0 |}.
    split_and!; try done.
    unfold append. run_monad. rewrite Has. unfold deref, modify.
    rewrite Ht, Hkeys. cbn [negb]. rewrite Ht, Hself. cbn [self heap].
    destruct (buffer (self w)) as [|first' l] eqn:Hbuf; [done|].
    injection Hfirst as ->.
    case_decide; [|done]. cbv beta.
    change (Py.getitem (first :: l) 0) with (Return first).
    cbn [heap self rng].
    rewrite list_lookup_insert_ne by done. rewrite Ht0.
    cbn [heap self rng].
    rewrite list_lookup_insert_eq by (by eapply lookup_lt_Some).
    rewrite keys_to. by case_decide.
Qed.

(** C10. When [append] rejects a candidate for its differing attributes,
    the candidate object has been relocated to the buffer's device all the
    same: it is the only object changed, and the buffer (items and write
    cursor) is as before. The rejection is the one of a non-empty buffer
    whose first record has another key list than the candidate. *)
Theorem append_relocates_rejected_candidate (transition : candidate)
    (required_attrs : list string) (w w0 w' : World) (a : addr) :
  as_transition Transition_new transition w = (Return a, w0) →
  append Transition_new transition required_attrs w
    = (Raise ValueError_different_attributes, w') →
  ∃ t t',
    heap w0 !! a = Some t
    ∧ heap w' !! a = Some t'
    ∧ t' = Transition.to (buffer_device (self w)) t
    ∧ Forall (λ x, Torch.device x = buffer_device (self w)) (Transition.tensors t')
    ∧ heap w' = <[a := t']> (heap w0)
    ∧ self w' = self w
    ∧ rng w' = rng w
    ∧ ∃ first t0,
        buffer (self w) !! 0 = Some first
        ∧ heap w' !! first = Some t0
        ∧ Transition.keys t0 ≠ Transition.keys t.
Proof.
  intros Has. destruct (as_transition_self _ _ _ _ Has) as [Hself Hrng].
  unfold append. run_monad. rewrite Has. unfold deref, modify.
  destruct (heap w0 !! a) as [t|] eqn:Ht; [|done].
  destruct (Transition.has_keys t required_attrs); cbn [negb]; [|done].
  rewrite Ht, Hself. cbn [self heap].
  assert (Hta : <[a := Transition.to (buffer_device (self w)) t]> (heap w0) !! a
                = Some (Transition.to (buffer_device (self w)) t))
    by (apply list_lookup_insert_eq; by eapply lookup_lt_Some).
  destruct (buffer (self w)) as [|first l] eqn:Hbuf.
  - cbn [length]. case_decide; [done|]. cbv beta. cbn [self buffer heap rng].
    unfold Py.setitem. intros Hrun. repeat (case_decide || case_match); simplify_eq.
  - case_decide; [|done]. cbv beta.
    change (Py.getitem (first :: l) 0) with (Return first).
    cbn [heap self rng].
    destruct (_ !! first) as [t0|] eqn:Ht0; [|done].
    cbn [heap self rng]. rewrite Hta.
    case_decide as Hne.
    + intros [= <-]. exists t, (Transition.to (buffer_device (self w)) t).
      cbn [heap self rng].
      split_and!; try done; [apply tensors_to|].
      exists first, t0. by rewrite keys_to in Hne.
    + cbv beta. cbn [self buffer heap rng]. rewrite Hbuf.
      unfold Py.setitem. intros Hrun. repeat (case_decide || case_match); simplify_eq.
Qed.

(** An accepted candidate is stored at the end of the item list while the
    buffer is not full, and over the slot at the write cursor, which then
    advances modulo the capacity, once it is full; [append] returns the
    slot. *)
Lemma append_stores (transition : candidate) (required_attrs : list string)
    (w w0 : World) (a : addr) (t : Transition) :
  as_transition Transition_new transition w = (Return a, w0) →
  heap w0 !! a = Some t →
  Transition.has_keys t required_attrs = true →
  match buffer (self w) with
  | [] => True
  | first :: _ => ∃ t0, heap w0 !! first = Some t0
                        ∧ Transition.keys t0 = Transition.keys t
  end →
  let heap' := <[a := Transition.to (buffer_device (self w)) t]> (heap w0) in
  (length (buffer (self w)) < buffer_size (self w) →
     append Transition_new transition required_attrs w
       = (Return (length (buffer (self w))),
          {| self := {| buffer_size := buffer_size (self w);
                        buffer_device := buffer_device (self w);
                        buffer := buffer (self w) ++ [a];
                        index := index (self w) |};
             heap := heap'; rng := rng w |}))
  ∧ (length (buffer (self w)) = buffer_size (self w) →
     index (self w) < buffer_size (self w) →
     append Transition_new transition required_attrs w
       = (Return (index (self w)),
          {| self := {| buffer_size := buffer_size (self w);
                        buffer_device := buffer_device (self w);
                        buffer := <[index (self w) := a]> (buffer (self w));
                        index := (index (self w) + 1) `mod` buffer_size (self w) |};
             heap := heap'; rng := rng w |})).
Proof.
  intros Has Ht Hkeys Hschema heap'.
  destruct (as_transition_self _ _ _ _ Has) as [Hself Hrng].
  assert (Hta : heap' !! a = Some (Transition.to (buffer_device (self w)) t))
    by (apply list_lookup_insert_eq; by eapply lookup_lt_Some).
  assert (Hcheck :
    (if decide (length (buffer (self w)) ≠ 0) then
       first ← lift (Py.getitem (buffer (self w)) 0);
       t0 ← deref first;
       t ← deref a;
       if decide (Transition.keys t0 ≠ Transition.keys t)
       then raise ValueError_different_attributes
       else mret ()
     else mret ())
      {| self := self w; heap := heap'; rng := rng w |}
    = (Return (), {| self := self w; heap := heap'; rng := rng w |})).
  { destruct (buffer (self w)) as [|first l]; [done|].
    destruct Hschema as (t0 & Ht0 & Heq).
    case_decide; [|done].
    change (Py.getitem (first :: l) 0) with (Return first).
    run_monad. unfold deref. cbn [heap].
    destruct (decide (first = a)) as [->|Hne].
    - rewrite Hta. cbn [heap]. rewrite Hta. by case_decide.
    - unfold heap' at 1. rewrite list_lookup_insert_ne by done.
      rewrite Ht0. cbn [heap]. rewrite Hta, keys_to. by case_decide. }
  split.
  - intros Hlt. unfold append. run_monad. rewrite Has. unfold deref, modify.
    rewrite Ht, Hkeys. cbn [negb]. rewrite Ht, Hself, Hrng. cbn [self heap rng].
    fold heap'. revert Hcheck. run_monad. unfold deref. intros ->.
    cbn [self buffer].
    case_decide; [lia|]. cbv beta. cbn [self buffer].
    case_decide; [lia|]. cbn [self heap rng buffer index buffer_size buffer_device].
    rewrite length_app. cbn [length]. do 2 f_equal. lia.
  - intros Hfull Hindex. unfold append. run_monad. rewrite Has. unfold deref, modify.
    rewrite Ht, Hkeys. cbn [negb]. rewrite Ht, Hself, Hrng. cbn [self heap rng].
    fold heap'. revert Hcheck. run_monad. unfold deref. intros ->.
    cbn [self buffer].
    case_decide; [lia|]. cbv beta. cbn [self buffer].
    case_decide; [|done]. cbn [self heap rng buffer index buffer_size buffer_device].
    unfold Py.setitem. case_decide; [|lia].
    cbn [self heap rng buffer index buffer_size buffer_device].
    case_decide; [lia|]. done.
Qed.

End AdmissionErrors.

Section Scenarios.

Import Examples.

(** C2. Capacity 2, three minimal records with rewards [r1], [r2], [r3]
    appended in that order, the rewards that are sampled being ints within
    64 bits: [size()] is 2, the third record has overwritten
    the first in slot 0 and the second is still in slot 1, the write cursor
    is 1, and [sample_batch(2, sample_method="all")] returns size 2 with the
    rewards of the third and the second record, in that order. *)
Theorem ring_overwrite_scenario (r1 r2 r3 : Z) (numbers : list nat) :
  Torch.in_int64 r2 → Torch.in_int64 r3 →
  ∃ result w',
    scenario (world 2 [minimal r1; minimal r2; minimal r3] numbers)
      = (Return (2, (2, result)), w')
    ∧ buffer (self w') = [2; 1]
    ∧ index (self w') = 1
    ∧ heap w' !! 2 = Some (Transition.to "cuda:0" (minimal r3))
    ∧ heap w' !! 1 = Some (Transition.to "cuda:0" (minimal r2))
    ∧ Transition.keys (minimal r3) !! 3 = Some "reward"
    ∧ pyseq_items result !! 3
        = Some (RVal (STensor (Props.column_tensor "cuda:0" [r3; r2]))).
Proof.
  intros H2 H3. apply fits_int64_spec in H2, H3.
  eexists _, _. split.
  - lazy -[Torch.fits_int64 Z.add]. rewrite H3, H2.
    lazy -[Z.add]. reflexivity.
  - by vm_compute.
Qed.

Lemma ring_overwrite_scenario_witness :
  Torch.in_int64 2 ∧ Torch.in_int64 3
  ∧ ∃ result w',
      scenario (world 2 [minimal 1; minimal 2; minimal 3] [])
        = (Return (2, (2, result)), w')
      ∧ buffer (self w') = [2; 1]
      ∧ index (self w') = 1
      ∧ heap w' !! 2 = Some (Transition.to "cuda:0" (minimal 3))
      ∧ heap w' !! 1 = Some (Transition.to "cuda:0" (minimal 2))
      ∧ Transition.keys (minimal 3) !! 3 = Some "reward"
      ∧ pyseq_items result !! 3
          = Some (RVal (STensor (Props.column_tensor "cuda:0" [3; 2]%Z))).
Proof.
  split_and!; [unfold Torch.in_int64; lia..|].
  apply (ring_overwrite_scenario 1 2 3 []); unfold Torch.in_int64; lia.
Defined.

(** C2, as stated, fails for the rewards 1, 2, 3: slot 0 does not hold the
    second record and slot 1 does not hold the third. *)
Lemma ring_overwrite_scenario_as_stated_fails :
  let w' := (append_all [0; 1; 2] (world 2 (minimal <$> [1; 2; 3]%Z) [])).2 in
  ¬ ∃ a0 a1,
      buffer (self w') = [a0; a1]
      ∧ heap w' !! a0 = Some (Transition.to "cuda:0" (minimal 2))
      ∧ heap w' !! a1 = Some (Transition.to "cuda:0" (minimal 3)).
Proof.
  intros w' (a0 & a1 & Hbuf & H0 & H1).
  vm_compute in Hbuf. injection Hbuf as <- <-. vm_compute in H0. discriminate H0.
Qed.

Lemma append_rejections_witness :
  (append no_mapping (Object 2) default_required_attrs one_stored
     = (Raise (ValueError_missing_attributes
                 (list_to_set default_required_attrs
                    ∖ list_to_set (Transition.keys (reward_only 3)))),
        one_stored)
   ∧ "state" ∈ names_carried (ValueError_missing_attributes
                 (list_to_set default_required_attrs
                    ∖ list_to_set (Transition.keys (reward_only 3)))))
  ∧ ∃ w',
      append no_mapping (Object 1) default_required_attrs one_stored
        = (Raise ValueError_different_attributes, w')
      ∧ names_carried ValueError_different_attributes = ∅
      ∧ self w' = self one_stored
      ∧ rng w' = rng one_stored
      ∧ heap w' = <[1 := Transition.to "cuda:0" (with_priority 2 9)]> (heap one_stored).
Proof.
  split.
  - destruct (append_rejections no_mapping (Object 2) default_required_attrs
                one_stored one_stored 2 (reward_only 3) eq_refl eq_refl)
      as [Hmissing _].
    destruct (Hmissing eq_refl) as (Hrun & _ & Hnames).
    split; [exact Hrun|].
    apply Hnames; apply (bool_decide_unpack _); by vm_compute.
  - destruct (append_rejections no_mapping (Object 1) default_required_attrs
                one_stored one_stored 1 (with_priority 2 9) eq_refl eq_refl)
      as [_ Hdifferent].
    apply (Hdifferent eq_refl 0 (Transition.to "cuda:0" (minimal 1)) eq_refl eq_refl).
    apply (bool_decide_unpack _). by vm_compute.
Defined.

(** C5, as stated, fails on a buffer that holds a minimal record and a
    candidate with the further sub attribute ["priority"]: the error
    raised carries no key name. *)
Lemma append_different_attributes_names_no_key :
  ("priority" ∈ Transition.sub_attr (with_priority 2 9)
   ∧ "priority" ∉ Transition.major_attr (minimal 1) ++ Transition.sub_attr (minimal 1))
  ∧ ¬ ∃ e w',
      append no_mapping (Object 1) default_required_attrs one_stored = (Raise e, w')
      ∧ names_carried e ≠ ∅.
Proof.
  split.
  - split; apply (bool_decide_unpack _); by vm_compute.
  - intros (e & w' & Hrun & Hnames). vm_compute in Hrun.
    injection Hrun as <- _. by apply Hnames.
Qed.

Lemma append_relocates_rejected_candidate_witness :
  ∃ t t',
    heap one_stored !! 1 = Some t
    ∧ heap (append no_mapping (Object 1) default_required_attrs one_stored).2 !! 1
        = Some t'
    ∧ t' = Transition.to (buffer_device (self one_stored)) t
    ∧ Forall (λ x, Torch.device x = buffer_device (self one_stored))
             (Transition.tensors t')
    ∧ heap (append no_mapping (Object 1) default_required_attrs one_stored).2
        = <[1 := t']> (heap one_stored)
    ∧ self (append no_mapping (Object 1) default_required_attrs one_stored).2
        = self one_stored
    ∧ rng (append no_mapping (Object 1) default_required_attrs one_stored).2
        = rng one_stored
    ∧ ∃ first t0,
        buffer (self one_stored) !! 0 = Some first
        ∧ heap (append no_mapping (Object 1) default_required_attrs one_stored).2
            !! first = Some t0
        ∧ Transition.keys t0 ≠ Transition.keys t.
Proof.
  apply (append_relocates_rejected_candidate no_mapping (Object 1)
           default_required_attrs one_stored one_stored); [done|].
  by vm_compute.
Defined.

End Scenarios.

Section Storing.

Import Phases Invariants.

(** What the last part of [append] does, case by case. *)
Lemma store_run (a : addr) (w : World) :
  store a w =
    let b := self w in
    if decide (length (trimmed b) = buffer_size b) then
      if decide (index b < length (trimmed b)) then
        (Return (index b),
         with_items (<[index b := a]> (trimmed b))
                    ((index b + 1) `mod` buffer_size b) w)
      else (Raise IndexError, with_items (trimmed b) (index b) w)
    else
      (Return (length (trimmed b)),
       with_items (trimmed b ++ [a]) (index b) w).
Proof.
  unfold store, trimmed, with_items. run_monad. cbn zeta.
  destruct w as [[n dev l i] objects numbers].
  cbn [self heap rng buffer index buffer_size buffer_device].
  assert (Htail : ∀ l' : list addr,
    (if decide (length l' = n) then
       λ w : World,
         match Py.setitem (buffer (self w)) (index (self w)) a with
         | Return a0 =>
             let (o, w') :=
               (if decide (buffer_size (self w) = 0)
                then λ w0 : World, (Raise ZeroDivisionError, w0)
                else λ w0 : World,
                  (Return (),
                   {| self := {| buffer_size := buffer_size (self w0);
                                 buffer_device := buffer_device (self w0);
                                 buffer := buffer (self w0);
                                 index := (index (self w) + 1) `mod` buffer_size (self w) |};
                      heap := heap w0; rng := rng w0 |}))
                 {| self := {| buffer_size := buffer_size (self w);
                               buffer_device := buffer_device (self w);
                               buffer := a0;
                               index := index (self w) + 1 |};
                    heap := heap w; rng := rng w |} in
             match o with
             | Return _ => (Return (index (self w)), w')
             | Raise e => (Raise e, w')
             end
         | Raise e => (Raise e, w)
         end
     else
       λ w : World,
         (Return (length (buffer (self w) ++ [a]) - 1),
          {| self := {| buffer_size := buffer_size (self w);
                        buffer_device := buffer_device (self w);
                        buffer := buffer (self w) ++ [a];
                        index := index (self w) |};
             heap := heap w; rng := rng w |}))
      {| self := {| buffer_size := n; buffer_device := dev;
                    buffer := l'; index := i |};
         heap := objects; rng := numbers |}
    = (if decide (length l' = n) then
         if decide (i < length l') then
           (Return i,
            {| self := {| buffer_size := n; buffer_device := dev;
                          buffer := <[i:=a]> l'; index := (i + 1) `mod` n |};
               heap := objects; rng := numbers |})
         else
           (Raise IndexError,
            {| self := {| buffer_size := n; buffer_device := dev;
                          buffer := l'; index := i |};
               heap := objects; rng := numbers |})
       else
         (Return (length l'),
          {| self := {| buffer_size := n; buffer_device := dev;
                        buffer := l' ++ [a]; index := i |};
             heap := objects; rng := numbers |}))).
  { intros l'. destruct (decide (length l' = n)) as [Hfull|Hroom];
      cbn [self heap rng buffer index buffer_size buffer_device].
    - unfold Py.setitem. destruct (decide (i < length l')) as [Hin|Hout]; [|done].
      cbn [self heap rng buffer index buffer_size buffer_device].
      destruct (decide (n = 0)); [lia|done].
    - rewrite length_app. cbn [length]. do 2 f_equal. lia. }
  destruct (decide (n < length l)) as [Hover|Hfit];
    cbn [self heap rng buffer index buffer_size buffer_device]; apply Htail.
Qed.

End Storing.

Section AdmissionRuns.

Import Phases Invariants.

Variable Transition_new : list (string * value) → outcome Transition.

Lemma has_keys_to (device : string) (t : Transition) (names : list string) :
  Transition.has_keys (Transition.to device t) names = Transition.has_keys t names.
Proof.
  unfold Transition.has_keys, Transition.major_attr, Transition.sub_attr,
    Transition.to, Transition.map_values.
  cbn. by rewrite <- !list_fmap_compose.
Qed.

(** Every run of [append] on a candidate object either stops at one of the
    two checks, the buffer as it was, or goes on to the storing part with
    the buffer as it was. *)
Lemma append_outcomes (transition : candidate) (required_attrs : list string)
    (w w0 : World) (a : addr) :
  as_transition Transition_new transition w = (Return a, w0) →
  (∃ e w', append Transition_new transition required_attrs w = (Raise e, w')
           ∧ self w' = self w ∧ e ≠ IndexError ∧ e ≠ ZeroDivisionError)
  ∨ (∃ w1, self w1 = self w ∧ rng w1 = rng w
           ∧ append Transition_new transition required_attrs w = store a w1).
Proof.
  intros Has. destruct (as_transition_self _ _ _ _ _ Has) as [Hself Hrng].
  unfold append. run_monad. rewrite Has. unfold deref, modify.
  destruct (heap w0 !! a) as [t|] eqn:Ht; [|left; by eexists _, _].
  destruct (Transition.has_keys t required_attrs); cbn [negb];
    [|left; by eexists _, _].
  rewrite Ht, Hself, Hrng. cbn [self heap rng].
  set (w1 := {| self := self w;
                heap := <[a:=Transition.to (buffer_device (self w)) t]> (heap w0);
                rng := rng w |}).
  destruct (buffer (self w)) as [|first l] eqn:Hbuf.
  - cbn [length]. case_decide; [done|]. cbv beta.
    right. exists w1. split_and!; [done..|].
    unfold store. run_monad. unfold w1. cbn [self]. by rewrite Hbuf.
  - case_decide; [|done]. cbv beta.
    change (Py.getitem (first :: l) 0) with (Return first).
    cbn [heap self rng]. fold w1.
    destruct (heap w1 !! first) as [t0|] eqn:Ht0; [|left; by eexists _, _].
    destruct (heap w1 !! a) as [t1|] eqn:Ht1; [|left; by eexists _, _].
    case_decide; [left; by eexists _, _|].
    cbv beta. right. exists w1. split_and!; [done..|].
    unfold store. run_monad. unfold w1. cbn [self]. by rewrite Hbuf.
Qed.

(** A candidate object that has the required attributes and the key list
    of the first item passes both checks: [append] relocates it and goes on
    to the storing part. *)
Lemma append_then_store (transition : candidate) (required_attrs : list string)
    (w w0 : World) (a : addr) (t : Transition) :
  as_transition Transition_new transition w = (Return a, w0) →
  heap w0 !! a = Some t →
  Transition.has_keys t required_attrs = true →
  match buffer (self w) with
  | [] => True
  | first :: _ => ∃ t0, heap w0 !! first = Some t0
                        ∧ Transition.keys t0 = Transition.keys t
  end →
  append Transition_new transition required_attrs w
    = store a {| self := self w;
                 heap := <[a := Transition.to (buffer_device (self w)) t]> (heap w0);
                 rng := rng w |}.
Proof.
  intros Has Ht Hkeys Hschema.
  destruct (as_transition_self _ _ _ _ _ Has) as [Hself Hrng].
  unfold append. run_monad. rewrite Has. unfold deref, modify.
  rewrite Ht, Hkeys. cbn [negb]. rewrite Ht, Hself, Hrng. cbn [self heap rng].
  set (w1 := {| self := self w;
                heap := <[a:=Transition.to (buffer_device (self w)) t]> (heap w0);
                rng := rng w |}).
  assert (Hta : heap w1 !! a = Some (Transition.to (buffer_device (self w)) t))
    by (apply list_lookup_insert_eq; by eapply lookup_lt_Some).
  destruct (buffer (self w)) as [|first l] eqn:Hbuf.
  - cbn [length]. case_decide; [done|]. cbv beta.
    unfold store. run_monad. unfold w1. cbn [self]. by rewrite Hbuf.
  - destruct Hschema as (t0 & Ht0 & Heq).
    case_decide; [|done]. cbv beta.
    change (Py.getitem (first :: l) 0) with (Return first).
    cbn [heap self rng]. fold w1.
    assert (∃ t0', heap w1 !! first = Some t0'
                   ∧ Transition.keys t0' = Transition.keys t) as (t0' & Ht0' & Heq').
    { destruct (decide (first = a)) as [->|Hne].
      - eexists. split; [exact Hta|]. apply keys_to.
      - exists t0. split; [|done]. unfold w1. cbn [heap].
        by rewrite list_lookup_insert_ne. }
    rewrite Ht0', Hta, keys_to. case_decide; [done|]. cbv beta.
    unfold store. run_monad. unfold w1. cbn [self]. by rewrite Hbuf.
Qed.

Lemma trimmed_length (b : Buffer) :
  length (trimmed b) = length (buffer b) `min` buffer_size b.
Proof. unfold trimmed. case_decide; [rewrite length_drop|]; lia. Qed.

(** X1. Whenever [append] returns a slot, the item list is no longer than
    the capacity, the slot is inside it and holds the candidate object
    itself (its address, not a copy), and capacity and device are as
    before. This needs no assumption on the state before the call. *)
Theorem append_returns_slot_of_candidate (transition : candidate)
    (required_attrs : list string) (w w0 w' : World) (a : addr) (position : nat) :
  as_transition Transition_new transition w = (Return a, w0) →
  append Transition_new transition required_attrs w = (Return position, w') →
  length (buffer (self w')) ≤ buffer_size (self w')
  ∧ position < length (buffer (self w'))
  ∧ buffer (self w') !! position = Some a
  ∧ buffer_size (self w') = buffer_size (self w)
  ∧ buffer_device (self w') = buffer_device (self w).
Proof.
  intros Has Happ.
  destruct (append_outcomes _ required_attrs _ _ _ Has)
    as [(e & w2 & Hraise & _)|(w1 & Hself & _ & Hstore)]; [congruence|].
  rewrite Hstore, store_run in Happ. cbn zeta in Happ.
  pose proof (trimmed_length (self w1)) as Hlen.
  repeat case_decide; simplify_eq; unfold with_items;
    cbn [self buffer index buffer_size buffer_device]; rewrite <- Hself.
  - rewrite length_insert. split_and!; try done; [lia|].
    by apply list_lookup_insert_eq.
  - rewrite length_app. cbn [length]. split_and!; try done; [lia..|].
    by rewrite lookup_app_r, Nat.sub_diag.
Qed.

(** X2. The ring invariant, no more items than the capacity and the write
    cursor below the capacity, is kept by every call of [append], whether
    it stores the candidate or raises; and under it [append] of a candidate
    object never raises [IndexError] or [ZeroDivisionError]. *)
Theorem append_keeps_ring_inv (transition : candidate)
    (required_attrs : list string) (w : World) :
  ring_inv (self w) →
  ring_inv (self (append Transition_new transition required_attrs w).2)
  ∧ ∀ a w0, as_transition Transition_new transition w = (Return a, w0) →
      (append Transition_new transition required_attrs w).1 ≠ Raise IndexError
      ∧ (append Transition_new transition required_attrs w).1 ≠ Raise ZeroDivisionError.
Proof.
  intros [Hlen Hindex].
  assert (Hstore : ∀ a w1, self w1 = self w →
            ring_inv (self (store a w1).2)
            ∧ (store a w1).1 ≠ Raise IndexError
            ∧ (store a w1).1 ≠ Raise ZeroDivisionError).
  { intros a w1 Hself. rewrite store_run. cbn zeta.
    pose proof (trimmed_length (self w1)) as Htl. rewrite Hself in *.
    unfold ring_inv.
    repeat case_decide; unfold with_items;
      cbn [fst snd self buffer index buffer_size buffer_device];
      rewrite ?Hself, ?length_insert, ?length_app; cbn [length].
    - split_and!; try done; [lia|]. apply Nat.mod_upper_bound. lia.
    - lia.
    - split_and!; try done; lia. }
  destruct (as_transition Transition_new transition w) as [[a|e] w0] eqn:Has.
  - destruct (append_outcomes _ required_attrs _ _ _ Has)
      as [(e & w2 & Hraise & Hself & He1 & He2)|(w1 & Hself & _ & Hrun)].
    + rewrite Hraise. cbn [fst snd]. rewrite Hself.
      split; [done|]. intros _ _ _. split; congruence.
    + rewrite Hrun. destruct (Hstore a w1 Hself) as (Hinv & H1 & H2).
      split; [done|]. by intros _ _ _.
  - split; [|intros ? ? [=]].
    unfold append. run_monad. rewrite Has. cbn [snd].
    destruct transition as [d|a']; unfold as_transition in Has; revert Has;
      run_monad; [|done].
    destruct (Transition_new d); [done|]. by intros [= _ <-].
Qed.

(** X3. When the item list is at least as long as the capacity and the
    write cursor is not below the capacity (a capacity of 0, or one lowered
    after the cursor advanced), [append] of an acceptable candidate raises
    [IndexError]; by then the candidate has been relocated and the item
    list cut down to its last [buffer_size] items. *)
Theorem append_cursor_out_of_range (transition : candidate)
    (required_attrs : list string) (w w0 : World) (a : addr) (t : Transition) :
  as_transition Transition_new transition w = (Return a, w0) →
  heap w0 !! a = Some t →
  Transition.has_keys t required_attrs = true →
  match buffer (self w) with
  | [] => True
  | first :: _ => ∃ t0, heap w0 !! first = Some t0
                        ∧ Transition.keys t0 = Transition.keys t
  end →
  buffer_size (self w) ≤ length (buffer (self w)) →
  buffer_size (self w) ≤ index (self w) →
  append Transition_new transition required_attrs w
    = (Raise IndexError,
       {| self := {| buffer_size := buffer_size (self w);
                     buffer_device := buffer_device (self w);
                     buffer := drop (length (buffer (self w)) - buffer_size (self w))
                                    (buffer (self w));
                     index := index (self w) |};
          heap := <[a := Transition.to (buffer_device (self w)) t]> (heap w0);
          rng := rng w |}).
Proof.
  intros Has Ht Hkeys Hschema Hlen Hindex.
  rewrite (append_then_store _ _ _ _ _ _ Has Ht Hkeys Hschema), store_run.
  cbn zeta. cbn [self].
  pose proof (trimmed_length (self w)) as Htl.
  assert (Htrim : trimmed (self w)
                  = drop (length (buffer (self w)) - buffer_size (self w))
                         (buffer (self w))).
  { unfold trimmed. case_decide; [done|].
    replace (length (buffer (self w)) - buffer_size (self w)) with 0 by lia.
    done. }
  repeat case_decide; try lia. unfold with_items. cbn [self heap rng].
  by rewrite Htrim.
Qed.

(** X4. When the item list is longer than the capacity and the write
    cursor is below the capacity, [append] of an acceptable candidate keeps
    the last [buffer_size] items, overwrites the one at the cursor with the
    candidate, returns the cursor and advances it modulo the capacity. *)
Theorem append_trims_then_overwrites (transition : candidate)
    (required_attrs : list string) (w w0 : World) (a : addr) (t : Transition) :
  as_transition Transition_new transition w = (Return a, w0) →
  heap w0 !! a = Some t →
  Transition.has_keys t required_attrs = true →
  match buffer (self w) with
  | [] => True
  | first :: _ => ∃ t0, heap w0 !! first = Some t0
                        ∧ Transition.keys t0 = Transition.keys t
  end →
  buffer_size (self w) < length (buffer (self w)) →
  index (self w) < buffer_size (self w) →
  append Transition_new transition required_attrs w
    = (Return (index (self w)),
       {| self := {| buffer_size := buffer_size (self w);
                     buffer_device := buffer_device (self w);
                     buffer := <[index (self w) := a]>
                                 (drop (length (buffer (self w)) - buffer_size (self w))
                                       (buffer (self w)));
                     index := (index (self w) + 1) `mod` buffer_size (self w) |};
          heap := <[a := Transition.to (buffer_device (self w)) t]> (heap w0);
          rng := rng w |}).
Proof.
  intros Has Ht Hkeys Hschema Hlen Hindex.
  rewrite (append_then_store _ _ _ _ _ _ Has Ht Hkeys Hschema), store_run.
  cbn zeta. cbn [self].
  pose proof (trimmed_length (self w)) as Htl.
  assert (Htrim : trimmed (self w)
                  = drop (length (buffer (self w)) - buffer_size (self w))
                         (buffer (self w))).
  { unfold trimmed. by case_decide; [|lia]. }
  repeat case_decide; try lia. unfold with_items. cbn [self heap rng].
  by rewrite Htrim.
Qed.

(** Overwriting at the cursor and advancing it drops the oldest item and
    puts the new one last. *)
Lemma oldest_first_step {A} (l : list A) (c : nat) (a : A) :
  c < length l →
  drop ((c + 1) `mod` length l) (<[c:=a]> l)
    ++ take ((c + 1) `mod` length l) (<[c:=a]> l)
  = drop 1 (drop c l ++ take c l) ++ [a].
Proof.
  intros Hc. destruct (lookup_lt_is_Some_2 l c Hc) as [x Hx].
  rewrite (drop_S l x c Hx). cbn [app drop].
  destruct (decide (c + 1 = length l)) as [Hlast|Hmore].
  - rewrite Hlast, Nat.Div0.mod_same. cbn [drop take]. rewrite app_nil_r.
    rewrite insert_take_drop by done.
    replace (S c) with (length l) by lia. by rewrite drop_all, app_nil_l.
  - rewrite Nat.mod_small by lia.
    rewrite drop_insert_lt by lia.
    replace (c + 1) with (S c) by lia.
    rewrite (take_S_r (<[c:=a]> l) c a) by (by apply list_lookup_insert_eq).
    rewrite take_insert_ge by lia. by rewrite app_assoc.
Qed.

Lemma admissible_insert (required_attrs K : list string)
    (objects : list Transition) (a a' : addr) (t : Transition) (device : string) :
  objects !! a = Some t →
  admissible required_attrs K objects a' →
  admissible required_attrs K (<[a := Transition.to device t]> objects) a'.
Proof.
  intros Ht (t' & Ht' & Hhas & Hkeys). destruct (decide (a' = a)) as [->|Hne].
  - exists (Transition.to device t).
    rewrite list_lookup_insert_eq by (by eapply lookup_lt_Some).
    assert (t' = t) as -> by congruence.
    by rewrite has_keys_to, keys_to.
  - exists t'. by rewrite list_lookup_insert_ne.
Qed.

Lemma appends_from (n : nat) (required_attrs K : list string)
    (rest done : list addr) (w : World) :
  0 < n →
  buffer_size (self w) = n →
  length (buffer (self w)) = length done `min` n →
  index (self w) = (length done - n) `mod` n →
  oldest_first (self w) = drop (length done - n) done →
  Forall (admissible required_attrs K (heap w)) (buffer (self w)) →
  Forall (admissible required_attrs K (heap w)) rest →
  ∃ w',
    mapM (λ a, append Transition_new (Object a) required_attrs) rest w
      = (Return ((λ j, j `mod` n) <$> seq (length done) (length rest)), w')
    ∧ buffer_size (self w') = n
    ∧ buffer_device (self w') = buffer_device (self w)
    ∧ length (buffer (self w')) = length (done ++ rest) `min` n
    ∧ index (self w') = (length (done ++ rest) - n) `mod` n
    ∧ oldest_first (self w') = drop (length (done ++ rest) - n) (done ++ rest)
    ∧ rng w' = rng w.
Proof.
  intros Hn. revert done w.
  induction rest as [|a rest IH]; intros done w Hsize Hlen Hindex Hold Hbuf Hrest.
  - exists w. rewrite app_nil_r. by split_and!.
  - apply Forall_cons in Hrest as [(t & Ht & Hhas & Hkeys) Hrest].
    assert (Hschema : match buffer (self w) with
                      | [] => True
                      | first :: _ => ∃ t0, heap w !! first = Some t0
                          ∧ Transition.keys t0 = Transition.keys t
                      end).
    { destruct (buffer (self w)) as [|first l]; [done|].
      apply Forall_cons in Hbuf as [(t0 & Ht0 & _ & Hk0) _].
      exists t0. split; [done|congruence]. }
    assert (Htrim : trimmed (self w) = buffer (self w)).
    { unfold trimmed. case_decide; [lia|done]. }
    pose proof (append_then_store (Object a) required_attrs w w a t
                  eq_refl Ht Hhas Hschema) as Hrun.
    rewrite store_run in Hrun. cbn zeta in Hrun. cbn [self] in Hrun.
    rewrite Htrim in Hrun.
    set (heap' := <[a:=Transition.to (buffer_device (self w)) t]> (heap w)) in *.
    assert (Hadm : ∀ x, admissible required_attrs K (heap w) x →
                        admissible required_attrs K heap' x)
      by (intros x; by apply admissible_insert).
    assert (Ha : admissible required_attrs K heap' a)
      by (apply Hadm; by exists t).
    destruct (decide (length done < n)) as [Hroom|Hfull].
    + (* not full: the item list is what has been appended so far *)
      assert (Hi0 : index (self w) = 0).
      { rewrite Hindex. replace (length done - n) with 0 by lia.
        apply Nat.Div0.mod_0_l. }
      assert (Hb : buffer (self w) = done).
      { unfold oldest_first in Hold. rewrite Hi0 in Hold. cbn in Hold.
        rewrite app_nil_r in Hold.
        by replace (length done - n) with 0 in Hold by lia. }
      case_decide; [lia|].
      set (w1 := with_items (buffer (self w) ++ [a]) (index (self w))
                   {| self := self w; heap := heap'; rng := rng w |}) in *.
      destruct (IH (done ++ [a]) w1) as (w' & Hmap & H1 & H2 & H3 & H4 & H5 & H6).
      * done.
      * cbn. rewrite !length_app. cbn [length]. lia.
      * cbn. rewrite length_app. cbn [length]. rewrite Hi0.
        replace (length done + 1 - n) with 0 by lia.
        by rewrite Nat.Div0.mod_0_l.
      * unfold oldest_first. cbn [w1 with_items self buffer index].
        rewrite Hi0. cbn [drop take].
        rewrite app_nil_r, length_app. cbn [length].
        replace (length done + 1 - n) with 0 by lia. cbn [drop]. by rewrite Hb.
      * apply Forall_app. split; [by eapply Forall_impl|by constructor].
      * by eapply Forall_impl.
      * exists w'. cbn [mapM]. run_monad. rewrite Hrun, Hmap.
        rewrite <- !(assoc_L app) in *. cbn [app] in *.
        rewrite length_app in Hmap. cbn [length] in Hmap.
        split_and!; try done.
        cbn [length seq fmap list_fmap]. do 3 f_equal.
        -- rewrite Hlen, Nat.mod_small; lia.
        -- by rewrite length_app, Nat.add_1_r.
    + (* full: overwrite at the cursor *)
      assert (Hlenb : length (buffer (self w)) = n) by lia.
      assert (Hc : index (self w) < n).
      { rewrite Hindex. apply Nat.mod_upper_bound. lia. }
      case_decide; [|lia]. case_decide; [|lia].
      set (w1 := with_items (<[index (self w):=a]> (buffer (self w)))
                   ((index (self w) + 1) `mod` buffer_size (self w))
                   {| self := self w; heap := heap'; rng := rng w |}) in *.
      destruct (IH (done ++ [a]) w1) as (w' & Hmap & H1 & H2 & H3 & H4 & H5 & H6).
      * done.
      * cbn. rewrite length_insert, length_app. cbn [length]. lia.
      * cbn. rewrite length_app. cbn [length]. rewrite Hsize, Hindex.
        rewrite Nat.Div0.add_mod_idemp_l. f_equal. lia.
      * unfold oldest_first in *. cbn [w1 with_items self buffer index].
        rewrite Hsize. rewrite <- Hlenb at 1 2.
        rewrite oldest_first_step by lia. rewrite Hold.
        rewrite drop_drop, length_app. cbn [length].
        rewrite drop_app_le by lia. do 2 f_equal. lia.
      * apply Forall_insert; [by eapply Forall_impl|done].
      * by eapply Forall_impl.
      * exists w'. cbn [mapM]. run_monad. rewrite Hrun, Hmap.
        rewrite <- !(assoc_L app) in *. cbn [app] in *.
        rewrite length_app in Hmap. cbn [length] in Hmap.
        split_and!; try done.
        cbn [length seq fmap list_fmap]. do 3 f_equal.
        -- rewrite Hindex.
           replace (length done) with ((length done - n) + 1 * n) at 2 by lia.
           by rewrite Nat.Div0.mod_add.
        -- by rewrite length_app, Nat.add_1_r.
Qed.

(** X5. Ring overwrite from new. On a new buffer of capacity [n > 0],
    appending objects that all have the required attributes and one common
    key list always succeeds; the [j]-th append (from 0) returns slot
    [j mod n]; afterwards the buffer holds exactly the last [n] appended
    objects (all of them when fewer were appended), and read from the write
    cursor on, wrapping around, they are in the order they were appended.
    The random source is not used. *)
Theorem ring_keeps_last_appended (n : nat) (device : string)
    (required_attrs K : list string) (addrs : list addr)
    (objects : list Transition) (numbers : list nat) :
  0 < n →
  Forall (admissible required_attrs K objects) addrs →
  ∃ w',
    mapM (λ a, append Transition_new (Object a) required_attrs) addrs
         {| self := init n device; heap := objects; rng := numbers |}
      = (Return ((λ j, j `mod` n) <$> seq 0 (length addrs)), w')
    ∧ length (buffer (self w')) = length addrs `min` n
    ∧ oldest_first (self w') = drop (length addrs - n) addrs
    ∧ buffer (self w') ≡ₚ drop (length addrs - n) addrs
    ∧ index (self w') = (length addrs - n) `mod` n
    ∧ rng w' = numbers.
Proof.
  intros Hn Hadm.
  destruct (appends_from n required_attrs K addrs []
              {| self := init n device; heap := objects; rng := numbers |})
    as (w' & Hrun & _ & _ & Hlen & Hindex & Hold & Hrng);
    [done|done|done|by cbn; rewrite Nat.Div0.mod_0_l|done|by constructor|done|].
  exists w'. cbn [app length] in *. split_and!; try done.
  rewrite <- Hold. unfold oldest_first.
  rewrite (comm (++)). by rewrite take_drop.
Qed.

End AdmissionRuns.

Section AdmissionRunsExamples.

Import Examples Invariants.

Lemma append_returns_slot_of_candidate_witness :
  length (buffer (self (append no_mapping (Object 1) default_required_attrs
                          (holding 2 [0] (minimal <$> [1; 2]%Z))).2)) ≤ 2
  ∧ buffer (self (append no_mapping (Object 1) default_required_attrs
                    (holding 2 [0] (minimal <$> [1; 2]%Z))).2) !! 1 = Some 1.
Proof.
  destruct (append_returns_slot_of_candidate no_mapping (Object 1)
              default_required_attrs (holding 2 [0] (minimal <$> [1; 2]%Z))
              (holding 2 [0] (minimal <$> [1; 2]%Z))
              (append no_mapping (Object 1) default_required_attrs
                 (holding 2 [0] (minimal <$> [1; 2]%Z))).2 1 1)
    as (Hlen & _ & Hslot & _); [done|by vm_compute|].
  split; [exact Hlen|exact Hslot].
Defined.

Lemma append_keeps_ring_inv_witness :
  ring_inv (self (append no_mapping (Object 1) default_required_attrs one_stored).2)
  ∧ ring_inv (self (append no_mapping (Object 0) default_required_attrs one_stored).2).
Proof.
  split; apply append_keeps_ring_inv; split; cbn; lia.
Defined.

Lemma append_cursor_out_of_range_witness :
  append no_mapping (Object 0) default_required_attrs (world 0 [minimal 1] [])
    = (Raise IndexError,
       {| self := init 0 "cuda:0";
          heap := [Transition.to "cuda:0" (minimal 1)];
          rng := [] |}).
Proof.
  apply (append_cursor_out_of_range no_mapping (Object 0) default_required_attrs
           (world 0 [minimal 1] []) (world 0 [minimal 1] []) 0 (minimal 1));
    try done; cbn; lia.
Defined.

Lemma append_trims_then_overwrites_witness :
  append no_mapping (Object 3) default_required_attrs
         (holding 2 [0; 1; 2] (minimal <$> [1; 2; 3; 4]%Z))
    = (Return 0,
       {| self := {| buffer_size := 2; buffer_device := "cuda:0";
                     buffer := [3; 2]; index := 1 |};
          heap := [minimal 1; minimal 2; minimal 3; Transition.to "cuda:0" (minimal 4)];
          rng := [] |}).
Proof.
  refine (append_trims_then_overwrites no_mapping (Object 3) default_required_attrs
            (holding 2 [0; 1; 2] (minimal <$> [1; 2; 3; 4]%Z))
            (holding 2 [0; 1; 2] (minimal <$> [1; 2; 3; 4]%Z)) 3 (minimal 4)
            eq_refl eq_refl eq_refl _ _ _); [|cbn; lia..].
  by exists (minimal 1).
Defined.

Lemma ring_keeps_last_appended_witness :
  ∃ w',
    mapM (λ a, append no_mapping (Object a) default_required_attrs) [0; 1; 2; 0; 1]
         {| self := init 2 "cpu"; heap := minimal <$> [1; 2; 3]%Z; rng := [] |}
      = (Return [0; 1; 0; 1; 0], w')
    ∧ length (buffer (self w')) = 2
    ∧ oldest_first (self w') = [0; 1]
    ∧ buffer (self w') ≡ₚ [0; 1]
    ∧ index (self w') = 1
    ∧ rng w' = [].
Proof.
  apply (ring_keeps_last_appended no_mapping 2 "cpu" default_required_attrs
           (Transition.keys (minimal 1)) [0; 1; 2; 0; 1]
           (minimal <$> [1; 2; 3]%Z) []); [lia|].
  repeat constructor; eexists; by split_and!.
Defined.

End AdmissionRunsExamples.

Section SamplingFrame.

Import Invariants.

Lemma keeps_store_ret {A} (a : A) : keeps_store (mret a : M A).
Proof. by intros w. Qed.

Lemma keeps_store_lift {A} (o : outcome A) : keeps_store (lift o).
Proof. by intros w. Qed.

Lemma keeps_store_bind_run {A B} (m : M A) (f : A → M B) :
  keeps_store m →
  (∀ w a w1, m w = (Return a, w1) → keeps_store (f a)) →
  keeps_store (m ≫= f).
Proof.
  intros Hm Hf w. destruct (Hm w) as [Hs Hh]. run_monad.
  destruct (m w) as [[a|e] w1] eqn:Hrun; cbn [snd] in *; [|done].
  destruct (Hf w a w1 Hrun w1) as [H1 H2]. split; congruence.
Qed.

Lemma keeps_store_bind {A B} (m : M A) (f : A → M B) :
  keeps_store m → (∀ a, keeps_store (f a)) → keeps_store (m ≫= f).
Proof. intros Hm Hf. apply keeps_store_bind_run; [done|]. intros _ a _ _. apply Hf. Qed.

Lemma keeps_store_draw : keeps_store draw.
Proof. intros w. unfold draw. by destruct (rng w). Qed.

Lemma keeps_store_deref (a : addr) : keeps_store (deref a).
Proof. intros w. unfold deref. by destruct (heap w !! a). Qed.

Lemma keeps_store_get_self : keeps_store get_self.
Proof. by intros w. Qed.

Lemma keeps_store_mapM {A B} (f : A → M B) (l : list A) :
  (∀ x, keeps_store (f x)) → keeps_store (mapM f l).
Proof.
  intros Hf. induction l as [|x l IH]; cbn [mapM].
  - apply keeps_store_ret.
  - apply keeps_store_bind; [done|]. intros y.
    apply keeps_store_bind; [done|]. intros k. apply keeps_store_ret.
Qed.

Lemma keeps_store_pick {A} (k : nat) (pool : list A) : keeps_store (pick k pool).
Proof.
  revert pool. induction k as [|k IH]; intros pool; cbn [pick].
  - apply keeps_store_ret.
  - apply keeps_store_bind; [apply keeps_store_draw|]. intros r.
    destruct (pool !! _); [|apply keeps_store_ret].
    apply keeps_store_bind; [done|]. intros rest. apply keeps_store_ret.
Qed.

Lemma keeps_store_random_sample {A} (population : list A) (k : nat) :
  keeps_store (random_sample population k).
Proof.
  unfold random_sample. case_decide; [apply keeps_store_lift|apply keeps_store_pick].
Qed.

Lemma keeps_store_random_randint (a b : Z) : keeps_store (random_randint a b).
Proof.
  unfold random_randint. case_decide; [apply keeps_store_lift|].
  apply keeps_store_bind; [apply keeps_store_draw|]. intros r. apply keeps_store_ret.
Qed.

Lemma keeps_store_getattr (name : string) (f : strategy) :
  getattr_sample_method name = Some f → ∀ l n, keeps_store (f l n).
Proof.
  unfold getattr_sample_method. intros Hf l n.
  repeat case_decide; simplify_eq.
  - unfold sample_method_random_unique.
    case_decide; (apply keeps_store_bind;
      [apply keeps_store_random_sample|intros ?; apply keeps_store_ret]).
  - unfold sample_method_random.
    apply keeps_store_bind.
    { apply keeps_store_mapM. intros _. apply keeps_store_random_randint. }
    intros indexes. apply keeps_store_bind; [apply keeps_store_lift|].
    intros batch. apply keeps_store_ret.
  - apply keeps_store_ret.
Qed.

(** X6. [sample_batch] never changes the buffer (items, cursor, capacity,
    device) or any stored object, whatever it returns or raises, under each
    of the three named strategies, under an unknown name, and under a
    strategy function that itself changes neither. *)
Theorem sample_batch_keeps_store (batch_size : nat) (concatenate : bool)
    (device : option string) (sample_method : method)
    (sample_attrs extra : option (list string)) :
  match sample_method with
  | ByName _ => True
  | ByFunction f => ∀ l n, keeps_store (f l n)
  end →
  keeps_store (sample_batch batch_size concatenate device sample_method
                            sample_attrs extra).
Proof.
  intros Hmethod. unfold sample_batch.
  apply keeps_store_bind_run.
  { destruct sample_method as [name|f]; [|apply keeps_store_ret].
    destruct (getattr_sample_method _); [apply keeps_store_ret|apply keeps_store_lift]. }
  intros w f w1 Hf.
  assert (Hkeeps : ∀ l n, keeps_store (f l n)).
  { destruct sample_method as [name|f'].
    - destruct (getattr_sample_method _) as [g|] eqn:Hg; [|done].
      injection Hf as <- _. by eapply keeps_store_getattr.
    - by injection Hf as <- _. }
  apply keeps_store_bind; [apply keeps_store_get_self|]. intros b.
  apply keeps_store_bind; [apply Hkeeps|]. intros [batch k].
  apply keeps_store_bind.
  { destruct sample_attrs; [apply keeps_store_ret|].
    apply keeps_store_bind; [apply keeps_store_lift|]. intros first.
    apply keeps_store_bind; [apply keeps_store_deref|]. intros t.
    apply keeps_store_ret. }
  intros attrs.
  apply keeps_store_bind; [apply keeps_store_mapM, keeps_store_deref|]. intros items.
  apply keeps_store_bind; [apply keeps_store_lift|]. intros result.
  apply keeps_store_ret.
Qed.

Lemma sample_batch_keeps_store_witness :
  keeps_store (sample_batch 3 true None (ByName "random") None None)
  ∧ keeps_store (sample_batch 3 true None (ByFunction sample_method_all) None None).
Proof.
  split; apply sample_batch_keeps_store; [done|].
  intros l n. apply keeps_store_ret.
Defined.

Lemma mapM_run_length {A B} (f : A → M B) (l : list A) (w w' : World) (ys : list B) :
  mapM f l w = (Return ys, w') → length ys = length l.
Proof.
  revert w ys. induction l as [|x l IH]; intros w ys; cbn [mapM]; run_monad.
  - by intros [= <- _].
  - destruct (f x w) as [[y|e] w1]; [|done].
    destruct (mapM f l w1) as [[k|e] w2] eqn:Hrest; [|done].
    intros [= <- <-]. cbn. f_equal. by eapply IH.
Qed.

(** What a named strategy returns: a batch and its length. *)
Lemma named_strategy_size (name : string) (f : strategy) (l : list addr) (n : nat)
    (w w1 : World) (batch : list addr) (k : nat) :
  getattr_sample_method ("sample_method_" +:+ name) = Some f →
  f l n w = (Return (batch, k), w1) →
  length batch = k
  ∧ (name = "random_unique" → k = n `min` length l)
  ∧ (name = "random" → k = n)
  ∧ (name = "all" → k = length l).
Proof.
  unfold getattr_sample_method. intros Hf Hrun.
  repeat case_decide; simplify_eq;
    try match goal with
    | H : _ +:+ name = _ |- _ => apply (sample_method_name_inj name) in H; subst name
    end.
  - destruct (random_sample_spec l (n `min` length l) w) as (batch' & w' & Hs & Hlen & _);
      [lia|].
    unfold sample_method_random_unique in Hrun. revert Hrun. run_monad.
    case_decide.
    + replace (length l) with (n `min` length l) at 1 by lia. rewrite Hs.
      intros [= <- <- _]. split_and!; try done; lia.
    + replace n with (n `min` length l) at 1 by lia. rewrite Hs.
      intros [= <- <- _]. split_and!; try done; lia.
  - unfold sample_method_random in Hrun. revert Hrun. run_monad.
    destruct (@mapM M M_mbind M_mret nat Z _ (seq 0 n) w)
      as [[indexes|e] w'] eqn:Hidx; [|done].
    destruct (mapM (Py.getitem l) indexes) as [batch'|e] eqn:Hget; [|done].
    intros [= <- <- _].
    apply mapM_run_length in Hidx. apply mapM_outcome_length in Hget.
    rewrite length_seq in Hidx. split_and!; try done; congruence.
  - unfold sample_method_all in Hrun. revert Hrun. run_monad.
    intros [= <- <- _]. by split_and!.
Qed.

Lemma post_process_batch_tuple (first : Transition) (batch : list Transition)
    (device : string) (concatenate : bool) (attrs extra : list string)
    (result : pyseq resolved) :
  post_process_batch (first :: batch) device concatenate attrs extra = Return result →
  ∃ items, result = PyTuple items.
Proof.
  unfold post_process_batch.
  destruct (for_each attrs _ _) as [[res used]|e]; cbn; [|done].
  intros [= <-]. by exists res.
Qed.

(** X7. The size [sample_batch] reports under a named strategy, whenever
    it returns: [min batch_size size()] under [random_unique], [batch_size]
    under [random], [size()] under [all]. When that size is 0 the values
    are a list with one [None] per attribute of the requested list, which
    then must have been given; otherwise they are a tuple. *)
Theorem sample_batch_reports_size (name : string) (batch_size : nat)
    (concatenate : bool) (device : option string)
    (sample_attrs extra : option (list string))
    (w w' : World) (k : nat) (result : pyseq resolved) :
  sample_batch batch_size concatenate device (ByName name) sample_attrs extra w
    = (Return (k, result), w') →
  (name = "random_unique" → k = batch_size `min` length (buffer (self w)))
  ∧ (name = "random" → k = batch_size)
  ∧ (name = "all" → k = length (buffer (self w)))
  ∧ (k = 0 → ∃ attrs, sample_attrs = Some attrs
                      ∧ result = PyList (replicate (length attrs) (RVal SNone)))
  ∧ (k ≠ 0 → ∃ items, result = PyTuple items).
Proof.
  unfold sample_batch.
  destruct (getattr_sample_method _) as [f|] eqn:Hf; run_monad; [|done].
  destruct (f (buffer (self w)) batch_size w) as [[[batch k']|e] w1] eqn:Hrun; [|done].
  destruct (named_strategy_size _ _ _ _ _ _ _ _ Hf Hrun) as (Hlen & H1 & H2 & H3).
  destruct batch as [|first batch].
  - destruct sample_attrs as [attrs|]; [|done].
    cbn [mapM]. run_monad. cbn [post_process_batch].
    intros [= <- <- _]. cbn in Hlen. split_and!; try done.
    intros _. by exists attrs.
  - destruct sample_attrs as [attrs|];
      [|change (Py.getitem (first :: batch) 0) with (Return first);
        cbv beta iota;
        destruct (deref first w1) as [[t0|e] w2]; [|done]];
      (destruct (mapM deref (first :: batch) _) as [[items|e] w3] eqn:Hitems; [|done];
       apply mapM_run_length in Hitems;
       destruct items as [|t items]; [done|];
       destruct (post_process_batch _ _ _ _ _) as [r|e] eqn:Hpost; [|done];
       intros [= <- <- _]; cbn in Hlen; split_and!; try done; [lia|];
       intros _; by eapply post_process_batch_tuple).
Qed.

Lemma sample_batch_reports_size_witness :
  (3 = 5 `min` length (buffer (self (Examples.filled (Examples.reward_only <$> [5; 6; 7]%Z)))))
  ∧ ∃ items, PyTuple [RVal (STensor (Props.column_tensor "cuda:0" [5; 6; 7]%Z))]
             = PyTuple items.
Proof.
  destruct (sample_batch_reports_size "random_unique" 5 true None (Some ["reward"]) None
              (Examples.filled (Examples.reward_only <$> [5; 6; 7]%Z))
              (Examples.filled (Examples.reward_only <$> [5; 6; 7]%Z))
              3 (PyTuple [RVal (STensor (Props.column_tensor "cuda:0" [5; 6; 7]%Z))]))
    as (Hsize & _ & _ & _ & Htuple).
  - by vm_compute.
  - split; [by apply Hsize|by apply Htuple].
Defined.

End SamplingFrame.

Section PostProcessing.

Import Invariants.

(** Induction over a loop: an invariant of the processed prefix. *)
Lemma for_each_ind_from {A S} (I : list A → S → Prop) (body : S → A → outcome S)
    (l pre : list A) (acc acc' : S) :
  I pre acc →
  (∀ p x s acc acc', pre ++ l = p ++ x :: s →
     I p acc → body acc x = Return acc' → I (p ++ [x]) acc') →
  for_each l body acc = Return acc' →
  I (pre ++ l) acc'.
Proof.
  revert pre acc. induction l as [|x l IH]; intros pre acc Hpre Hstep; cbn [for_each].
  - intros [= <-]. by rewrite app_nil_r.
  - destruct (body acc x) as [acc1|e] eqn:Hbody; cbn; [|done].
    intros Hrest. rewrite cons_middle, (assoc_L (++)).
    apply (IH (pre ++ [x]) acc1); [by apply (Hstep pre x l acc acc1)| |done].
    intros p y s a1 a2 Hsplit. apply (Hstep p y s).
    by rewrite <- Hsplit, <- (assoc_L (++)).
Qed.

Lemma for_each_ind {A S} (I : list A → S → Prop) (body : S → A → outcome S)
    (l : list A) (acc acc' : S) :
  I [] acc →
  (∀ p x s acc acc', l = p ++ x :: s →
     I p acc → body acc x = Return acc' → I (p ++ [x]) acc') →
  for_each l body acc = Return acc' →
  I l acc'.
Proof. intros H0 Hstep. by apply (for_each_ind_from I body l []). Qed.

(** X8. Without a wildcard, the values [post_process_batch] returns are
    one per requested attribute: for every batch, device, concatenation
    flag and additional attributes, if it returns at all and no requested
    attribute is answered by the wildcard branch, the result has as many
    entries as attributes were requested. *)
Theorem post_process_batch_one_per_attribute (batch : list Transition)
    (device : string) (concatenate : bool) (sample_attrs extra : list string)
    (result : pyseq resolved) :
  post_process_batch batch device concatenate sample_attrs extra = Return result →
  (∀ first, batch !! 0 = Some first →
     Forall (λ attr, ¬ is_wildcard first attr) sample_attrs) →
  length (pyseq_items result) = length sample_attrs.
Proof.
  destruct batch as [|first batch]; cbn [post_process_batch].
  - intros [= <-] _. cbn. by rewrite length_replicate.
  - intros Hrun Hnowild. specialize (Hnowild first eq_refl).
    destruct (for_each sample_attrs _ _) as [[res used]|e] eqn:Hloop; cbn in Hrun; [|done].
    injection Hrun as <-. cbn [pyseq_items].
    apply (for_each_ind (λ pre acc, length acc.1 = length pre)) in Hloop; [done|done|].
    intros p x s [res1 used1] [res2 used2] Hsplit Hinv Hbody. cbn [fst] in *.
    assert (Hx : ¬ is_wildcard first x).
    { rewrite Forall_forall in Hnowild. apply Hnowild.
      rewrite Hsplit. set_solver. }
    rewrite length_app. cbn [length].
    unfold is_wildcard in Hx.
    repeat case_decide; try (exfalso; by apply Hx);
      unfold mbind, outcome_mbind, outcome_bind in Hbody;
      repeat case_match; simplify_eq; rewrite length_app; cbn [length]; lia.
Qed.

(** X9. The wildcard alone. When ["*"] is the only requested attribute
    (and is not itself the name of a major or sub attribute), the result
    has, in the key order of the first record, one entry for each of its
    keys that names neither a major nor a sub attribute: the stacking of
    that key's values over the batch, concatenated exactly when
    [concatenate] is set and ["*"] is among the additional attributes. *)
Theorem wildcard_expands_custom_keys (first : Transition) (batch : list Transition)
    (device : string) (concatenate : bool) (extra : list string)
    (result : pyseq resolved) :
  "*" ∉ Transition.major_attr first →
  "*" ∉ Transition.sub_attr first →
  post_process_batch (first :: batch) device concatenate ["*"] extra = Return result →
  ∃ entries,
    result = PyTuple entries
    ∧ Forall2 (λ k e, ∃ col s,
                 column (first :: batch) k = Return col
                 ∧ make_tensor_from_batch col device
                     (concatenate && bool_decide ("*" ∈ extra)) = Return s
                 ∧ e = RVal s)
              (wildcard_keys first) entries.
Proof.
  intros Hmajor Hsub. unfold post_process_batch. cbn [for_each].
  case_decide; [done|]. case_decide; [done|]. case_decide; [|done].
  destruct (for_each (Transition.keys first) _ _) as [res|e] eqn:Hloop; cbn; [|done].
  intros [= <-]. exists res. split; [done|].
  apply (for_each_ind (λ pre acc,
           Forall2 (λ k e, ∃ col s,
                 column (first :: batch) k = Return col
                 ∧ make_tensor_from_batch col device
                     (concatenate && bool_decide ("*" ∈ extra)) = Return s
                 ∧ e = RVal s)
             (filter (λ k, (k ∉ Transition.major_attr first)
                           ∧ (k ∉ Transition.sub_attr first)) pre) acc))
    in Hloop; [done|constructor|].
  intros p x s acc acc' _ Hinv Hbody. rewrite filter_app.
  case_decide as Hdec.
  - destruct Hdec as (Hx1 & Hx2 & _).
    rewrite (filter_cons_True _ x []) by done.
    unfold mbind, outcome_mbind, outcome_bind in Hbody.
    destruct (column (first :: batch) x) as [col|] eqn:Hcol; [|done].
    destruct (make_tensor_from_batch col _ _) as [st|] eqn:Hst; [|done].
    injection Hbody as <-. apply Forall2_app; [done|].
    repeat constructor. by exists col, st.
  - injection Hbody as <-.
    rewrite (filter_cons_False _ x []), app_nil_r; [done|].
    intros [Hx1 Hx2]. apply Hdec. split_and!; try done. apply not_elem_of_nil.
Qed.

Lemma column_length (batch : list Transition) (attr : string) (col : list value) :
  column batch attr = Return col → length col = length batch.
Proof. apply mapM_outcome_length. Qed.

(** X10. With concatenation off, requested attributes that are not major
    attributes (sub attributes, or custom attributes asked for by name)
    come back as the plain lists of the records' values, one list per
    attribute in the requested order, each list in batch order. *)
Theorem post_process_batch_lists (first : Transition) (batch : list Transition)
    (device : string) (sample_attrs extra : list string) (cols : list (list value)) :
  Forall2 (λ attr col,
             (attr ∉ Transition.major_attr first)
             ∧ (attr ∈ Transition.sub_attr first ∨ attr ≠ "*")
             ∧ column (first :: batch) attr = Return col)
          sample_attrs cols →
  post_process_batch (first :: batch) device false sample_attrs extra
    = Return (PyTuple ((λ col, RVal (SBatch col)) <$> cols)).
Proof.
  intros Hcols. unfold post_process_batch.
  match goal with |- context [for_each sample_attrs ?b _] => set (body := b) end.
  assert (Hgen : ∀ res used,
            for_each sample_attrs body (res, used)
            = Return (res ++ ((λ col, RVal (SBatch col)) <$> cols), used ++ sample_attrs)).
  { induction Hcols as [|attr col attrs cols (Hmajor & Hkind & Hcol) _ IH];
      intros res used; cbn [for_each].
    - by rewrite !app_nil_r.
    - assert (Hstep : body (res, used) attr
                      = Return (res ++ [RVal (SBatch col)], used ++ [attr])).
      { assert (Hst : make_tensor_from_batch col device false = Return (SBatch col)).
        { apply column_length in Hcol as Hlen. by destruct col. }
        unfold body. case_decide; [done|].
        case_decide.
        - by rewrite Hcol; cbn; rewrite Hst.
        - case_decide; [by destruct Hkind|].
          by rewrite Hcol; cbn; rewrite Hst. }
      rewrite Hstep. cbn. rewrite IH. cbn [fmap list_fmap].
      by rewrite <- !(assoc_L (++)). }
  by rewrite Hgen.
Qed.

Lemma lookup_key_elem_of {V} (k : string) (m : list (string * V)) (v : V) :
  Transition.lookup_key k m = Some v → k ∈ m.*1.
Proof.
  induction m as [|[k' v'] m IH]; cbn; [done|].
  case_decide; [subst; intros _; left|intros ?; right; auto].
Qed.

Lemma dict_setitem_new_key {V} (k : string) (v : V) (d : list (string * V)) :
  k ∉ d.*1 → (dict_setitem k v d).*1 = d.*1 ++ [k].
Proof.
  induction d as [|[k' v'] d IH]; cbn; [done|]. intros Hk.
  case_decide; [subst; exfalso; apply Hk; left|].
  cbn. f_equal. apply IH. intros ?. apply Hk. by right.
Qed.

(** X11. A requested major attribute comes back as a dictionary with the
    sub-keys of the first record's mapping, in their order (the mapping
    having no repeated key). *)
Theorem post_process_batch_major_keys (first : Transition) (batch : list Transition)
    (device : string) (concatenate : bool) (extra : list string)
    (attr : string) (m : list (string * Tensor)) (result : pyseq resolved) :
  Transition.lookup_key attr (Transition.major first) = Some m →
  NoDup m.*1 →
  post_process_batch (first :: batch) device concatenate [attr] extra = Return result →
  ∃ tmp_dict, result = PyTuple [RDict tmp_dict] ∧ tmp_dict.*1 = m.*1.
Proof.
  intros Hm Hnodup. unfold post_process_batch. cbn [for_each].
  case_decide as Hin; [|exfalso; apply Hin; by eapply lookup_key_elem_of].
  assert (Hget : Transition.getitem first attr = Return (VDict m))
    by (unfold Transition.getitem; by rewrite Hm).
  rewrite Hget. cbn [mbind outcome_mbind outcome_bind].
  destruct (for_each m.*1 _ _) as [d|e] eqn:Hloop; cbn; [|done].
  intros [= <-]. exists d. split; [done|].
  apply (for_each_ind (λ pre acc, acc.*1 = pre)) in Hloop; [done|done|].
  intros p x s acc acc' Hsplit Hinv Hbody.
  unfold mbind, outcome_mbind, outcome_bind in Hbody.
  repeat case_match; simplify_eq.
  apply dict_setitem_new_key.
  rewrite Hsplit in Hnodup. apply NoDup_app in Hnodup as (_ & Hdisj & _).
  intros Hx. apply (Hdisj x Hx). left.
Qed.

Lemma value_to_device_tensors (device : string) (xs : list Tensor) :
  mapM (value_to_device device) (VTensor <$> xs) = Return (Torch.to device <$> xs).
Proof.
  induction xs as [|x xs IH]; [done|].
  cbn [fmap list_fmap mapM value_to_device]. cbn in IH. by rewrite IH.
Qed.

(** X12. Stacking tensors. A non-empty batch of tensors that agree on all
    dimensions after the first is concatenated along the first: the result
    is on the target device, its element type is the common type of theirs,
    its first dimension is the sum of theirs, and its elements are theirs,
    converted to the common type, in batch order. *)
Theorem make_tensor_from_batch_tensors (x : Tensor) (xs : list Tensor)
    (device : string) (rest : list nat) :
  Forall (λ y, ∃ n, Torch.shape y = n :: rest) (x :: xs) →
  make_tensor_from_batch (VTensor <$> x :: xs) device true
    = Return (STensor
        {| Torch.device := device;
           Torch.dtype := Torch.result_type (x :: xs);
           Torch.shape := sum_list ((λ y, hd 0 (Torch.shape y)) <$> x :: xs) :: rest;
           Torch.data :=
             concat ((λ y, Torch.data (Torch.astype (Torch.result_type (x :: xs)) y))
                       <$> x :: xs) |}).
Proof.
  intros Hshape.
  assert (Hsum : ∀ l, map (λ y, hd 0 (Torch.shape y)) (Torch.to device <$> l)
                      = (λ y, hd 0 (Torch.shape y)) <$> l)
    by (induction l as [|? ? IHl]; cbn; [done|by rewrite IHl]).
  assert (Htype : ∀ l, Torch.result_type (Torch.to device <$> l) = Torch.result_type l)
    by (unfold Torch.result_type; induction l as [|? ? IHl]; cbn in *; [done|by rewrite IHl]).
  assert (Hdata : ∀ d l, map (λ y, Torch.data (Torch.astype d y)) (Torch.to device <$> l)
                         = (λ y, Torch.data (Torch.astype d y)) <$> l).
  { intros d. induction l as [|y ? IHl]; cbn; [done|]. rewrite IHl. f_equal.
    unfold Torch.astype. cbn [Torch.to Torch.dtype]. by case_decide. }
  assert (Hdims : forallb (λ y, bool_decide (Torch.shape y ≠ []))
                    (Torch.to device <$> x :: xs) = true).
  { induction Hshape as [|y ys [k Hk] _ IH]; [done|].
    cbn [fmap list_fmap forallb Torch.to Torch.shape]. rewrite Hk.
    rewrite bool_decide_true by done. exact IH. }
  assert (Hvalid : ∀ l, Forall (λ y, ∃ n, Torch.shape y = n :: rest) l →
            let valid := filter (λ y, Torch.shape y ≠ [0]) (Torch.to device <$> l) in
            forallb (λ y, bool_decide (tail (Torch.shape y) = rest)) valid = true
            ∧ (l ≠ [] → match valid with [] => [] | y :: _ => tail (Torch.shape y) end
                        = rest)).
  { intros l Hl. cbn zeta. induction Hl as [|y ys [k Hk] _ [IH _]]; [done|].
    cbn [fmap list_fmap]. rewrite filter_cons. cbn [Torch.to Torch.shape].
    case_decide as Hskip.
    - cbn [forallb Torch.to Torch.shape]. rewrite Hk. cbn [tail].
      by rewrite bool_decide_true by done.
    - split; [done|]. intros _.
      rewrite Hk in Hskip. injection Hskip as _ Hrest.
      destruct (filter _ _) as [|y' valid]; [done|].
      cbn [forallb] in IH. apply andb_prop in IH as [IH _].
      by apply bool_decide_eq_true in IH. }
  set (expected := STensor _).
  unfold make_tensor_from_batch.
  change (VTensor <$> x :: xs) with (VTensor x :: (VTensor <$> xs)).
  cbn [is_tensor].
  change (VTensor x :: (VTensor <$> xs)) with (VTensor <$> x :: xs).
  rewrite value_to_device_tensors. cbn [mbind outcome_mbind outcome_bind].
  unfold Torch.cat.
  change (Torch.to device <$> x :: xs)
    with (Torch.to device x :: (Torch.to device <$> xs)) at 1.
  cbn iota.
  change (Torch.to device x :: (Torch.to device <$> xs))
    with (Torch.to device <$> x :: xs).
  rewrite Hdims, Htype, Hsum, Hdata. cbn [andb Torch.to Torch.device].
  destruct (Hvalid (x :: xs) Hshape) as [Hall Hrest]. cbn zeta in *.
  by rewrite Hrest, Hall.
Qed.

(** X13. Concatenation of a batch whose first element is a tensor but
    which holds an element that is not one raises [AttributeError], from
    the attempt to relocate that element. *)
Theorem make_tensor_from_batch_not_a_tensor (x : Tensor) (batch : list value)
    (device : string) :
  Exists (λ v, is_tensor v = false) batch →
  make_tensor_from_batch (VTensor x :: batch) device true = Raise AttributeError.
Proof.
  intros Hex. unfold make_tensor_from_batch. cbn [is_tensor mapM value_to_device].
  cbn [mbind outcome_mbind outcome_bind].
  assert (Hfail : mapM (value_to_device device) batch = Raise AttributeError).
  { induction batch as [|v batch IH]; [by apply Exists_nil in Hex|].
    cbn [mapM]. destruct v as [sc|y|d]; cbn; try done.
    apply Exists_cons in Hex as [Hv|Hrest]; [done|].
    by rewrite IH. }
  by rewrite Hfail.
Qed.

End PostProcessing.

Section PicklingProps.

Import Pickling.

(** X14. Pickling round trip. The buffer loaded from what [__reduce__]
    returns has the capacity and the device of the original, no items and
    its write cursor at 0; it equals the original exactly when the original
    had no items and its cursor at 0. *)
Theorem rebuild_reduce (b : Buffer) :
  buffer_size (rebuild (reduce b)) = buffer_size b
  ∧ buffer_device (rebuild (reduce b)) = buffer_device b
  ∧ buffer (rebuild (reduce b)) = []
  ∧ index (rebuild (reduce b)) = 0
  ∧ (rebuild (reduce b) = b ↔ buffer b = [] ∧ index b = 0).
Proof.
  destruct b as [n dev l i]. cbn. split_and!; try done.
  split; [by intros [= <- <-]|by intros [-> ->]].
Qed.

End PicklingProps.

Section PostProcessingExamples.

Import Examples Invariants.

Lemma post_process_batch_one_per_attribute_witness :
  ∃ result,
    post_process_batch [minimal 1; minimal 2] "cpu" true ["reward"; "state"] []
      = Return result
    ∧ length (pyseq_items result) = 2.
Proof.
  eexists. split; [by vm_compute|].
  apply (post_process_batch_one_per_attribute [minimal 1; minimal 2] "cpu" true
           ["reward"; "state"] []); [by vm_compute|].
  intros first [= <-]. repeat constructor; by intros [[=] _].
Defined.

Lemma wildcard_expands_custom_keys_witness :
  ∃ entries,
    PyTuple [RVal (SBatch [VScalar 7%Z; VScalar 8%Z])] = PyTuple entries
    ∧ Forall2 (λ k e, ∃ col s,
                 column [with_info 1 7; with_info 2 8] k = Return col
                 ∧ make_tensor_from_batch col "cpu"
                     (true && bool_decide ("*" ∈ ["info"])) = Return s
                 ∧ e = RVal s)
              (wildcard_keys (with_info 1 7)) entries.
Proof.
  apply (wildcard_expands_custom_keys (with_info 1 7) [with_info 2 8] "cpu" true ["info"]).
  - apply (bool_decide_unpack _). by vm_compute.
  - apply (bool_decide_unpack _). by vm_compute.
  - by vm_compute.
Defined.

Lemma post_process_batch_lists_witness :
  post_process_batch [with_info 1 7; with_info 2 8] "cpu" false ["reward"; "info"] []
    = Return (PyTuple [RVal (SBatch [VScalar 1%Z; VScalar 2%Z]);
                       RVal (SBatch [VScalar 7%Z; VScalar 8%Z])]).
Proof.
  apply (post_process_batch_lists (with_info 1 7) [with_info 2 8] "cpu"
           ["reward"; "info"] []
           [[VScalar 1%Z; VScalar 2%Z]; [VScalar 7%Z; VScalar 8%Z]]).
  constructor; [|constructor; [|constructor]]; split_and!.
  - apply (bool_decide_unpack _). by vm_compute.
  - left. apply (bool_decide_unpack _). by vm_compute.
  - by vm_compute.
  - apply (bool_decide_unpack _). by vm_compute.
  - by right.
  - by vm_compute.
Defined.

Lemma post_process_batch_major_keys_witness :
  ∃ tmp_dict,
    PyTuple [RDict [("obs", STensor {| Torch.device := "cpu";
                                        Torch.dtype := Torch.t_int64;
                                        Torch.shape := [2; 2];
                                        Torch.data := SInt <$> [1; 1; 2; 2]%Z |})]]
      = PyTuple [RDict tmp_dict]
    ∧ tmp_dict.*1 = ["obs"].
Proof.
  apply (post_process_batch_major_keys (minimal 1) [minimal 2] "cpu" true []
           "state" [("obs", obs 1)]).
  - done.
  - apply (bool_decide_unpack _). by vm_compute.
  - by vm_compute.
Defined.

Lemma make_tensor_from_batch_tensors_witness :
  make_tensor_from_batch (VTensor <$> [obs 1; obs 2]) "cuda:0" true
    = Return (STensor {| Torch.device := "cuda:0"; Torch.dtype := Torch.t_int64;
                         Torch.shape := [2; 2];
                         Torch.data := SInt <$> [1; 1; 2; 2]%Z |}).
Proof.
  refine (make_tensor_from_batch_tensors (obs 1) [obs 2] "cuda:0" [2] _).
  repeat constructor; by exists 1.
Defined.

Lemma make_tensor_from_batch_not_a_tensor_witness :
  make_tensor_from_batch [VTensor (obs 1); VTensor (obs 2); VScalar 3%Z] "cpu" true
    = Raise AttributeError.
Proof.
  apply make_tensor_from_batch_not_a_tensor. right. by left.
Defined.

End PostProcessingExamples.

Section Schema.

Import Phases Invariants.

Variable Transition_new : list (string * value) → outcome Transition.

(** Where a run of [append] on a candidate object ends: before the
    relocation; after it, at the second check; or in the storing part,
    both checks passed. *)
Lemma append_outcomes_detail (transition : candidate) (required_attrs : list string)
    (w w0 : World) (a : addr) :
  as_transition Transition_new transition w = (Return a, w0) →
  (∃ e, append Transition_new transition required_attrs w = (Raise e, w0))
  ∨ ∃ t, heap w0 !! a = Some t
      ∧ Transition.has_keys t required_attrs = true
      ∧ (let w1 := {| self := self w;
                      heap := <[a := Transition.to (buffer_device (self w)) t]> (heap w0);
                      rng := rng w |} in
         (∃ e, append Transition_new transition required_attrs w = (Raise e, w1))
         ∨ (match buffer (self w) with
            | [] => True
            | first :: _ => ∃ t0, heap w1 !! first = Some t0
                                  ∧ Transition.keys t0 = Transition.keys t
            end
            ∧ append Transition_new transition required_attrs w = store a w1)).
Proof.
  intros Has. destruct (as_transition_self _ _ _ _ _ Has) as [Hself Hrng].
  unfold append. run_monad. rewrite Has. unfold deref, modify.
  destruct (heap w0 !! a) as [t|] eqn:Ht; [|left; by eexists].
  destruct (Transition.has_keys t required_attrs) eqn:Hhas; cbn [negb];
    [|left; by eexists].
  right. exists t. split_and!; [done..|]. cbn zeta.
  rewrite Ht, Hself, Hrng. cbn [self heap rng].
  set (w1 := {| self := self w;
                heap := <[a:=Transition.to (buffer_device (self w)) t]> (heap w0);
                rng := rng w |}).
  destruct (buffer (self w)) as [|first l] eqn:Hbuf.
  - cbn [length]. case_decide; [done|]. cbv beta.
    right. split; [done|].
    unfold store. run_monad. unfold w1. cbn [self]. by rewrite Hbuf.
  - case_decide; [|done]. cbv beta.
    change (Py.getitem (first :: l) 0) with (Return first).
    cbn [heap self rng]. fold w1.
    destruct (heap w1 !! first) as [t0|] eqn:Ht0; [|left; by eexists].
    assert (Hta : heap w1 !! a = Some (Transition.to (buffer_device (self w)) t))
      by (apply list_lookup_insert_eq; by eapply lookup_lt_Some).
    rewrite Hta. case_decide as Hne; [left; by eexists|].
    cbv beta. right. split.
    + exists t0. split; [done|]. rewrite keys_to in Hne.
      by destruct (decide (Transition.keys t0 = Transition.keys t)).
    + unfold store. run_monad. unfold w1. cbn [self]. by rewrite Hbuf.
Qed.

Lemma has_key_list_insert (K : list string) (objects : list Transition)
    (a x : addr) (t : Transition) (device : string) :
  objects !! a = Some t →
  (∃ t', objects !! x = Some t' ∧ Transition.keys t' = K) →
  ∃ t', <[a := Transition.to device t]> objects !! x = Some t'
        ∧ Transition.keys t' = K.
Proof.
  intros Ht (t' & Ht' & Hk). destruct (decide (x = a)) as [->|Hne].
  - exists (Transition.to device t).
    rewrite list_lookup_insert_eq by (by eapply lookup_lt_Some).
    rewrite keys_to. split; [done|congruence].
  - exists t'. by rewrite list_lookup_insert_ne.
Qed.

(** X15. Schema uniformity is an invariant of [append]: if all items are
    objects with one common key list when [append] is called on a
    candidate object, they still are afterwards, whether the candidate was
    stored or the call raised. *)
Theorem append_keeps_uniform_keys (transition : candidate)
    (required_attrs : list string) (w w0 : World) (a : addr) :
  as_transition Transition_new transition w = (Return a, w0) →
  uniform_keys (heap w0) (buffer (self w)) →
  uniform_keys (heap (append Transition_new transition required_attrs w).2)
               (buffer (self (append Transition_new transition required_attrs w).2)).
Proof.
  intros Has [K HK]. destruct (as_transition_self _ _ _ _ _ Has) as [Hself Hrng].
  destruct (append_outcomes_detail _ required_attrs _ _ _ Has)
    as [[e ->] | (t & Ht & _ & [[e ->] | [Hschema ->]])]; cbn zeta in *.
  - exists K. cbn [snd]. by rewrite Hself.
  - exists K. cbn [self heap]. eapply Forall_impl; [exact HK|].
    intros x. by apply has_key_list_insert.
  - rewrite store_run. cbn zeta. cbn [self].
    set (objects := <[a:=Transition.to (buffer_device (self w)) t]> (heap w0)) in *.
    assert (Ha : objects !! a = Some (Transition.to (buffer_device (self w)) t))
      by (apply list_lookup_insert_eq; by eapply lookup_lt_Some).
    assert (∃ K', Forall (λ x, ∃ t', objects !! x = Some t' ∧ Transition.keys t' = K')
                         (buffer (self w))
                  ∧ ∃ t', objects !! a = Some t' ∧ Transition.keys t' = K')
      as (K' & Hitems & Hcand).
    { destruct (buffer (self w)) as [|first l] eqn:Hbuf.
      - exists (Transition.keys t). split; [constructor|].
        eexists. split; [exact Ha|apply keys_to].
      - exists K. split.
        + eapply Forall_impl; [exact HK|]. intros x. by apply has_key_list_insert.
        + eexists. split; [exact Ha|]. rewrite keys_to.
          destruct Hschema as (t0 & Ht0 & <-).
          apply Forall_cons in HK as [Hfirst _].
          destruct (has_key_list_insert K (heap w0) a first t
                      (buffer_device (self w)) Ht Hfirst) as (t0' & Ht0' & <-).
          cbn [heap] in Ht0. unfold objects in Ht0. congruence. }
    assert (Htrim : Forall (λ x, ∃ t', objects !! x = Some t' ∧ Transition.keys t' = K')
                           (trimmed (self w))).
    { unfold trimmed. case_decide; [by apply Forall_drop|done]. }
    exists K'.
    repeat case_decide; unfold with_items;
      cbn [fst snd self heap buffer].
    + by apply Forall_insert.
    + done.
    + apply Forall_app. split; [done|by constructor].
Qed.

(** X16. [clear()] forgets the schema: right after it, [append] accepts any
    candidate object that has the required attributes, whatever the key
    list of the items held before, and stores it in slot 0 of a buffer of
    capacity at least 1; the write cursor keeps its value. *)
Theorem append_after_clear (transition : candidate) (required_attrs : list string)
    (w w0 : World) (a : addr) (t : Transition) :
  as_transition Transition_new transition (clear w).2 = (Return a, w0) →
  heap w0 !! a = Some t →
  Transition.has_keys t required_attrs = true →
  0 < buffer_size (self w) →
  append Transition_new transition required_attrs (clear w).2
    = (Return 0,
       {| self := {| buffer_size := buffer_size (self w);
                     buffer_device := buffer_device (self w);
                     buffer := [a];
                     index := index (self w) |};
          heap := <[a := Transition.to (buffer_device (self w)) t]> (heap w0);
          rng := rng w |}).
Proof.
  intros Has Ht Hhas Hsize.
  rewrite (append_then_store _ _ _ _ _ _ _ Has Ht Hhas); [|done].
  rewrite store_run. cbn zeta. unfold trimmed, with_items. cbn.
  destruct (decide (buffer_size (self w) < 0)); [lia|]. cbn.
  by destruct (decide (0 = buffer_size (self w))); [lia|].
Qed.

End Schema.

Section DefaultAttributes.

(** X17. Leaving [sample_attrs] out is asking for all the keys of the
    first sampled record, in its key order: when the strategy returns a
    non-empty batch, [sample_batch] without [sample_attrs] is [sample_batch]
    with the key list of the batch's first record. *)
Theorem sample_batch_default_attrs (batch_size : nat) (concatenate : bool)
    (device : option string) (sample_method : method) (f : strategy)
    (extra : option (list string)) (w w1 : World)
    (first : addr) (batch : list addr) (k : nat) (t : Transition) :
  match sample_method with
  | ByName name => getattr_sample_method ("sample_method_" +:+ name) = Some f
  | ByFunction g => g = f
  end →
  f (buffer (self w)) batch_size w = (Return (first :: batch, k), w1) →
  heap w1 !! first = Some t →
  sample_batch batch_size concatenate device sample_method None extra w
    = sample_batch batch_size concatenate device sample_method
                   (Some (Transition.keys t)) extra w.
Proof.
  intros Hmethod Hrun Ht. unfold sample_batch.
  destruct sample_method as [name|g]; [rewrite Hmethod|subst g];
    run_monad; rewrite Hrun;
    change (Py.getitem (first :: batch) 0) with (Return first);
    unfold deref at 1; by rewrite Ht.
Qed.

Lemma sample_batch_default_attrs_witness :
  sample_batch 1 true None (ByName "all") None None
      (Examples.filled (Examples.reward_only <$> [5; 6; 7]%Z))
    = sample_batch 1 true None (ByName "all") (Some ["reward"]) None
        (Examples.filled (Examples.reward_only <$> [5; 6; 7]%Z)).
Proof.
  by refine (sample_batch_default_attrs 1 true None (ByName "all") sample_method_all None
               (Examples.filled (Examples.reward_only <$> [5; 6; 7]%Z))
               (Examples.filled (Examples.reward_only <$> [5; 6; 7]%Z))
               0 [1; 2] 3 (Examples.reward_only 5) _ _ _).
Defined.

End DefaultAttributes.

Section SchemaExamples.

Import Examples Invariants.

Lemma append_keeps_uniform_keys_witness :
  uniform_keys (heap (append no_mapping (Object 1) default_required_attrs one_stored).2)
               (buffer (self (append no_mapping (Object 1) default_required_attrs
                                one_stored).2)).
Proof.
  apply (append_keeps_uniform_keys no_mapping (Object 1) default_required_attrs
           one_stored one_stored 1); [done|].
  exists (Transition.keys (minimal 1)). repeat constructor. by eexists.
Defined.

Lemma append_after_clear_witness :
  append no_mapping (Object 2) ["reward"]
         (clear (holding 2 [0; 1] [minimal 1; minimal 2; reward_only 3])).2
    = (Return 0,
       {| self := {| buffer_size := 2; buffer_device := "cuda:0";
                     buffer := [2]; index := 0 |};
          heap := [minimal 1; minimal 2; reward_only 3];
          rng := [] |}).
Proof.
  by refine (append_after_clear no_mapping (Object 2) ["reward"]
               (holding 2 [0; 1] [minimal 1; minimal 2; reward_only 3])
               (clear (holding 2 [0; 1] [minimal 1; minimal 2; reward_only 3])).2
               2 (reward_only 3) eq_refl eq_refl eq_refl _); cbn; lia.
Defined.

End SchemaExamples.

Section Relocation.

Import Phases Invariants.

Variable Transition_new : list (string * value) → outcome Transition.

Lemma store_heap (a : addr) (w : World) : heap (store a w).2 = heap w.
Proof. rewrite store_run. cbn zeta. by repeat case_decide. Qed.

(** X18. A stored record is on the buffer's device: whenever [append]
    returns a slot, every array-like value of the candidate object is on
    [buffer_device], and no other object has changed. *)
Theorem append_stores_on_device (transition : candidate)
    (required_attrs : list string) (w w0 w' : World) (a : addr) (position : nat) :
  as_transition Transition_new transition w = (Return a, w0) →
  append Transition_new transition required_attrs w = (Return position, w') →
  (∃ t', heap w' !! a = Some t'
         ∧ Forall (λ x, Torch.device x = buffer_device (self w)) (Transition.tensors t'))
  ∧ ∀ x, x ≠ a → heap w' !! x = heap w0 !! x.
Proof.
  intros Has Hrun.
  destruct (append_outcomes_detail Transition_new _ required_attrs _ _ _ Has)
    as [[e Hstop] | (t & Ht & Hhas & [[e Hstop] | [_ Hstore]])]; cbn zeta in *;
    [congruence..|].
  rewrite Hstore in Hrun.
  assert (Hheap : heap w' = <[a:=Transition.to (buffer_device (self w)) t]> (heap w0)).
  { pose proof (store_heap a {| self := self w;
        heap := <[a:=Transition.to (buffer_device (self w)) t]> (heap w0);
        rng := rng w |}) as Hsame.
    by rewrite Hrun in Hsame. }
  rewrite Hheap. split.
  - exists (Transition.to (buffer_device (self w)) t). split; [|apply tensors_to].
    apply list_lookup_insert_eq. by eapply lookup_lt_Some.
  - intros x Hx. by rewrite list_lookup_insert_ne.
Qed.

(** X19. [append] of a plain mapping works on a new object: no object that
    existed before the call is changed, whatever the call returns or
    raises. *)
Theorem append_of_mapping_keeps_objects (d : list (string * value))
    (required_attrs : list string) (w : World) (x : addr) :
  x < length (heap w) →
  heap (append Transition_new (FromDict d) required_attrs w).2 !! x = heap w !! x.
Proof.
  intros Hx.
  destruct (Transition_new d) as [t|e] eqn:Hnew.
  - assert (Has : as_transition Transition_new (FromDict d) w
                  = (Return (length (heap w)),
                     {| self := self w; heap := heap w ++ [t]; rng := rng w |})).
    { unfold as_transition. run_monad. by rewrite Hnew. }
    destruct (append_outcomes_detail Transition_new _ required_attrs _ _ _ Has)
      as [[e ->] | (t' & Ht' & _ & [[e ->] | [_ ->]])]; cbn zeta;
      rewrite ?store_heap; cbn [snd heap];
      rewrite ?list_lookup_insert_ne by lia; by rewrite lookup_app_l.
  - unfold append, as_transition. run_monad. by rewrite Hnew.
Qed.

End Relocation.

Section RelocationExamples.

Import Examples Invariants.

Lemma append_stores_on_device_witness :
  (∃ t', heap (append no_mapping (Object 1) default_required_attrs
                 (holding 2 [0] (minimal <$> [1; 2]%Z))).2 !! 1 = Some t'
         ∧ Forall (λ x, Torch.device x = "cuda:0") (Transition.tensors t'))
  ∧ ∀ x, x ≠ 1 →
      heap (append no_mapping (Object 1) default_required_attrs
              (holding 2 [0] (minimal <$> [1; 2]%Z))).2 !! x
        = heap (holding 2 [0] (minimal <$> [1; 2]%Z)) !! x.
Proof.
  by refine (append_stores_on_device no_mapping (Object 1) default_required_attrs
               (holding 2 [0] (minimal <$> [1; 2]%Z))
               (holding 2 [0] (minimal <$> [1; 2]%Z))
               (append no_mapping (Object 1) default_required_attrs
                  (holding 2 [0] (minimal <$> [1; 2]%Z))).2 1 1 eq_refl _).
Defined.

Lemma append_of_mapping_keeps_objects_witness :
  heap (append sub_attrs_only (FromDict [("reward", VScalar 4%Z)]) ["reward"]
          one_stored).2 !! 0
    = heap one_stored !! 0.
Proof.
  apply append_of_mapping_keeps_objects. cbn. lia.
Defined.

End RelocationExamples.

